(** * spotuify: the local OAuth authorization-code flow

    A shallow embedding of [src/spotuify/api/auth.py]: the callback handler
    [CallbackHandler.do_GET] and the orchestrator [SpotifyAuth]
    ([_get_oauth], [get_cached_token], [authenticate], [logout]).

    The Python code mutates class attributes, a file, a socket and calls
    user hooks; here all of that is one explicit [World] threaded through a
    small state-and-exception monad [Flow].  The wrapped libraries
    (urllib.parse, spotipy's token endpoint calls) are parameters, collected
    in the record [Library]. *)

From Stdlib Require Import ZArith List Lia Ascii String.
From stdpp Require Import base gmap sets list strings pretty.

Local Open Scope Z_scope.
Local Open Scope string_scope.
Local Open Scope list_scope.

(** ** Data *)

(** The token dictionary spotipy hands out and caches (five keys, hence a
    non-empty and truthy dict). *)
Record TokenInfo := mkTokenInfo {
  access_token : string;
  refresh_token : string;
  token_type : string;
  scope : string;
  expires_at : Z
}.

(** What a path of the file system may hold: a readable token record, or
    bytes that do not parse as one. *)
Inductive file :=
| TokenFile (t : TokenInfo)
| Garbage (raw : string).

(** [Config]: the properties of [utils/config.py] the flow reads. *)
Record Config := mkConfig {
  client_id : string;
  client_secret : string;
  redirect_uri : string;
  scopes : string;
  token_cache_path : string
}.

(** The [SpotifyOAuth] object is determined by its constructor arguments
    ([open_browser] is always [False]). *)
Record SpotifyOAuth := mkSpotifyOAuth {
  oa_client_id : string;
  oa_client_secret : string;
  oa_redirect_uri : string;
  oa_scope : string;
  oa_cache_path : string
}.

(** A library call either returns or raises; an exception is kept as its
    message, which is all the flow ever uses ([str(e)]). *)
Inductive Result (A : Type) :=
| Ok (a : A)
| Err (msg : string).
Arguments Ok {A} a.
Arguments Err {A} msg.

(** The wrapped libraries.  [parse_query path] stands for
    [parse_qs(urlparse(path).query)]: every key present is mapped to the
    non-empty list of its values, kept as first value and rest, so
    [params[k][0]] is the first component. *)
Record Library := mkLibrary {
  urlparse_port : string -> option Z;
  parse_query : string -> gmap string (string * list string);
  is_token_expired : TokenInfo -> bool;
  refresh_access_token : string -> Result TokenInfo;
  get_access_token : string -> Result TokenInfo;
  get_authorize_url : SpotifyOAuth -> string
}.

(** Body of an HTTP answer; the HTML text is presentation only. *)
Inductive Body :=
| SuccessPage
| FailurePage (reason : string)
| EmptyBody.

Record Response := mkResponse {
  status : Z;
  headers : list (string * string);
  body : Body
}.

(** Class attributes of [CallbackHandler]: the result mailbox. *)
Module CallbackHandler.
Record t := mk {
  auth_code : option string;
  error : option string
}.
Definition empty : t := {| auth_code := None; error := None |}.
End CallbackHandler.

(** What one call of [server.handle_request()] meets: nothing before
    [server.timeout] seconds have passed, or a GET request ([do_GET] is the
    only method the handler defines). *)
Inductive Inbound :=
| NoRequest
| Get (path : string).

(** Observable calls, in the order they happen. *)
Inductive Effect :=
| EBind (port : Z)
| EClose (port : Z)
| EOpenBrowser (url : string)
| EOnWaiting
| EOnSuccess
| EOnError (reason : string)
| ERespond (r : Response)
| EExchange (code : string)
| ERefresh (rt : string).

Record World := mkWorld {
  fs : gmap string file;            (* files by path *)
  bound : gset Z;                   (* localhost ports in use *)
  handler : CallbackHandler.t;      (* CallbackHandler.auth_code / .error *)
  _oauth : option SpotifyOAuth;     (* self._oauth *)
  inbound : nat -> Inbound;         (* what the n-th handle_request meets *)
  accepted : nat;                   (* handle_request calls so far *)
  waited : Z;                       (* seconds spent in timed-out accepts *)
  trace : list Effect
}.

Definition set_fs (f : gmap string file) (w : World) : World :=
  mkWorld f (bound w) (handler w) (_oauth w) (inbound w) (accepted w) (waited w) (trace w).
Definition set_bound (b : gset Z) (w : World) : World :=
  mkWorld (fs w) b (handler w) (_oauth w) (inbound w) (accepted w) (waited w) (trace w).
Definition set_handler (h : CallbackHandler.t) (w : World) : World :=
  mkWorld (fs w) (bound w) h (_oauth w) (inbound w) (accepted w) (waited w) (trace w).
Definition set_oauth (o : option SpotifyOAuth) (w : World) : World :=
  mkWorld (fs w) (bound w) (handler w) o (inbound w) (accepted w) (waited w) (trace w).
Definition next_accept (secs : Z) (w : World) : World :=
  mkWorld (fs w) (bound w) (handler w) (_oauth w) (inbound w) (S (accepted w))
          (waited w + secs) (trace w).
Definition log (e : Effect) (w : World) : World :=
  mkWorld (fs w) (bound w) (handler w) (_oauth w) (inbound w) (accepted w) (waited w)
          (trace w ++ [e]).

(** ** The monad: state, exceptions, and the accept loop's fuel *)

Inductive Outcome (A : Type) :=
| Returned (a : A) (w : World)
| Raised (exc : string) (w : World)
| Waiting (w : World).   (* still inside the accept loop when the fuel ran out *)
Arguments Returned {A} a w.
Arguments Raised {A} exc w.
Arguments Waiting {A} w.

Definition world_of {A} (o : Outcome A) : World :=
  match o with Returned _ w | Raised _ w | Waiting w => w end.

Definition Flow (A : Type) : Type := World -> Outcome A.

Definition ret {A} (a : A) : Flow A := fun w => Returned a w.
Definition raise {A} (exc : string) : Flow A := fun w => Raised exc w.
Definition bind {A B} (m : Flow A) (k : A -> Flow B) : Flow B :=
  fun w => match m w with
           | Returned a w' => k a w'
           | Raised exc w' => Raised exc w'
           | Waiting w' => Waiting w'
           end.
Definition try_except {A} (m : Flow A) (h : string -> Flow A) : Flow A :=
  fun w => match m w with
           | Raised exc w' => h exc w'
           | o => o
           end.
Definition read {A} (f : World -> A) : Flow A := fun w => Returned (f w) w.
Definition update (f : World -> World) : Flow unit := fun w => Returned tt (f w).
Definition emit (e : Effect) : Flow unit := update (log e).

Declare Scope flow_scope.
Delimit Scope flow_scope with flow.
Notation "x <- m ;; k" := (bind m (fun x => k))
  (at level 100, m at next level, right associativity) : flow_scope.
Notation "m ;; k" := (bind m (fun _ => k))
  (at level 100, right associativity) : flow_scope.
Local Open Scope flow_scope.

(** Python truthiness of [str | None]. *)
Definition truthy (s : option string) : bool :=
  match s with
  | Some v => negb (String.eqb v "")
  | None => false
  end.

(** A hook argument: [true] when a callable was passed.  Here a hook that
    is called is recorded and returns; hooks that raise are in [Fallible]
    below. *)
Record Hooks := mkHooks {
  on_waiting : bool;
  on_success : bool;
  on_error : bool
}.

Definition call_hook (given : bool) (e : Effect) : Flow unit :=
  if given then emit e else ret tt.

(** ** os *)

Definition os_path_exists (path : string) : Flow bool :=
  read (fun w => bool_decide (is_Some (fs w !! path))).

Definition os_remove (path : string) : Flow unit :=
  fun w => match fs w !! path with
           | Some _ => Returned tt (set_fs (delete path (fs w)) w)
           | None => Raised "FileNotFoundError" w
           end.

(** ** http.server *)

Record Server := mkServer {
  server_port : Z;
  timeout : Z
}.

(** [HTTPServer(("localhost", port), CallbackHandler)] binds at once. *)
Definition HTTPServer (port : Z) : Flow Z :=
  emit (EBind port) ;;
  b <- read bound ;;
  if decide (port ∈ b)
  then raise "OSError: [Errno 98] Address already in use"
  else update (set_bound ({[port]} ∪ b)) ;; ret port.

Definition server_close (server : Server) : Flow unit :=
  emit (EClose (server_port server)) ;;
  b <- read bound ;;
  update (set_bound (b ∖ {[server_port server]})).

Section Auth.

Variable lib : Library.
Variable config : Config.

(** ** [CallbackHandler.do_GET] *)
Definition do_GET (h : CallbackHandler.t) (path : string)
  : CallbackHandler.t * Response :=
  let params := parse_query lib path in
  match params !! "code" with
  | Some vs =>
      (CallbackHandler.mk (Some (fst vs)) (CallbackHandler.error h),
       mkResponse 200 [("Content-type", "text/html")] SuccessPage)
  | None =>
      match params !! "error" with
      | Some vs =>
          (CallbackHandler.mk (CallbackHandler.auth_code h) (Some (fst vs)),
           mkResponse 400 [("Content-type", "text/html")] (FailurePage (fst vs)))
      | None => (h, mkResponse 400 [] EmptyBody)
      end
  end.

(** [server.handle_request()]: wait up to [server.timeout] seconds for one
    request; on a timeout [handle_timeout()] does nothing and the call
    returns. *)
Definition handle_request (server : Server) (w : World) : World :=
  match inbound w (accepted w) with
  | NoRequest => next_accept (timeout server) w
  | Get path =>
      let hr := do_GET (handler w) path in
      log (ERespond (snd hr)) (set_handler (fst hr) (next_accept 0 w))
  end.

(** [while CallbackHandler.auth_code is None and CallbackHandler.error is
    None: server.handle_request()] *)
Fixpoint wait_for_callback (fuel : nat) (server : Server) : Flow unit :=
  fun w =>
    match CallbackHandler.auth_code (handler w), CallbackHandler.error (handler w) with
    | None, None =>
        match fuel with
        | O => Waiting w
        | S fuel' => wait_for_callback fuel' server (handle_request server w)
        end
    | _, _ => Returned tt w
    end.

(** ** spotipy's [SpotifyOAuth] methods, on top of [Library] *)

(** Reads the cache file; an absent or unreadable file is a miss. *)
Definition oauth_get_cached_token (oauth : SpotifyOAuth) : Flow (option TokenInfo) :=
  read (fun w => match fs w !! oa_cache_path oauth with
                 | Some (TokenFile t) => Some t
                 | _ => None
                 end).

Definition save_token (oauth : SpotifyOAuth) (t : TokenInfo) : Flow unit :=
  update (fun w => set_fs (<[oa_cache_path oauth := TokenFile t]> (fs w)) w).

(** A successful refresh or exchange rewrites the cache file. *)
Definition oauth_refresh_access_token (oauth : SpotifyOAuth) (rt : string)
  : Flow TokenInfo :=
  emit (ERefresh rt) ;;
  match refresh_access_token lib rt with
  | Ok t => save_token oauth t ;; ret t
  | Err msg => raise msg
  end.

Definition oauth_get_access_token (oauth : SpotifyOAuth) (code : string)
  : Flow TokenInfo :=
  emit (EExchange code) ;;
  match get_access_token lib code with
  | Ok t => save_token oauth t ;; ret t
  | Err msg => raise msg
  end.

(** ** [SpotifyAuth] *)

Definition new_oauth : SpotifyOAuth :=
  mkSpotifyOAuth (client_id config) (client_secret config) (redirect_uri config)
                 (scopes config) (token_cache_path config).

Definition _get_oauth : Flow SpotifyOAuth :=
  o <- read _oauth ;;
  match o with
  | Some oauth => ret oauth
  | None => update (set_oauth (Some new_oauth)) ;; ret new_oauth
  end.

Definition get_cached_token : Flow (option TokenInfo) :=
  oauth <- _get_oauth ;;
  token_info <- oauth_get_cached_token oauth ;;
  match token_info with
  | Some t =>
      if is_token_expired lib t
      then t' <- oauth_refresh_access_token oauth (refresh_token t) ;; ret (Some t')
      else ret (Some t)
  | None => ret None
  end.

(** [parsed.port or 8888] *)
Definition callback_port : Z :=
  match urlparse_port lib (redirect_uri config) with
  | Some p => if Z.eqb p 0 then 8888 else p
  | None => 8888
  end.

Definition authenticate (fuel : nat) (hooks : Hooks) : Flow (option TokenInfo) :=
  token_info <- get_cached_token ;;
  match token_info with
  | Some t => call_hook (on_success hooks) EOnSuccess ;; ret (Some t)
  | None =>
      oauth <- _get_oauth ;;
      let port := callback_port in
      update (set_handler CallbackHandler.empty) ;;
      bound_port <- HTTPServer port ;;
      let server := mkServer bound_port 120 in
      let auth_url := get_authorize_url lib oauth in
      emit (EOpenBrowser auth_url) ;;
      call_hook (on_waiting hooks) EOnWaiting ;;
      wait_for_callback fuel server ;;
      server_close server ;;
      h <- read handler ;;
      if truthy (CallbackHandler.error h)
      then call_hook (on_error hooks) (EOnError (default "" (CallbackHandler.error h))) ;;
           ret None
      else if truthy (CallbackHandler.auth_code h)
      then try_except
             (t <- oauth_get_access_token oauth
                     (default "" (CallbackHandler.auth_code h)) ;;
              call_hook (on_success hooks) EOnSuccess ;;
              ret (Some t))
             (fun msg => call_hook (on_error hooks) (EOnError msg) ;; ret None)
      else ret None
  end.

Definition logout : Flow unit :=
  present <- os_path_exists (token_cache_path config) ;;
  (if present then os_remove (token_cache_path config) else ret tt) ;;
  update (set_oauth None).

End Auth.

(** ** Vocabulary of the statements *)

(** The mailbox holds at most one of its two fields. *)
Definition exclusive (h : CallbackHandler.t) : Prop :=
  CallbackHandler.auth_code h = None \/ CallbackHandler.error h = None.

(** The request's query has the parameter [key]. *)
Definition carries (lib : Library) (key path : string) : Prop :=
  is_Some (parse_query lib path !! key).

(** An accept that cannot end the wait: a timeout, or a request with
    neither [code] nor [error]. *)
Definition quiet (lib : Library) (ev : Inbound) : Prop :=
  match ev with
  | NoRequest => True
  | Get path => parse_query lib path !! "code" = None /\
                parse_query lib path !! "error" = None
  end.

(** The first [k] accepts from world [w] on are quiet. *)
Definition quiet_until (lib : Library) (w : World) (k : nat) : Prop :=
  forall i : nat, (i < k)%nat -> quiet lib (inbound w (accepted w + i)%nat).

(** [self._oauth] is unset or is the object [_get_oauth] builds. *)
Definition session_ok (config : Config) (w : World) : Prop :=
  _oauth w = None \/ _oauth w = Some (new_oauth config).

(** The readable record in the cache file, if any. *)
Definition cached_record (config : Config) (w : World) : option TokenInfo :=
  match fs w !! token_cache_path config with
  | Some (TokenFile t) => Some t
  | _ => None
  end.

Definition is_bind (e : Effect) : bool :=
  match e with EBind _ => true | _ => false end.
Definition is_browser (e : Effect) : bool :=
  match e with EOpenBrowser _ => true | _ => false end.
Definition is_success (e : Effect) : bool :=
  match e with EOnSuccess => true | _ => false end.
Definition is_error (e : Effect) : bool :=
  match e with EOnError _ => true | _ => false end.
Definition is_exchange (e : Effect) : bool :=
  match e with EExchange _ => true | _ => false end.
Definition is_refresh (e : Effect) : bool :=
  match e with ERefresh _ => true | _ => false end.

(** The calls of kind [p] among [evs], in order. *)
Definition calls (p : Effect -> bool) (evs : list Effect) : list Effect :=
  List.filter p evs.

(** The calls [evs] made by a run that returned [r] agree with the
    contract of the success hook: with a token returned the hook, when
    given, was called once and as the last thing; with [None] returned it
    was not called. *)
Definition success_hook_agrees (hooks : Hooks) (r : option TokenInfo)
    (evs : list Effect) : Prop :=
  match r with
  | Some _ =>
      calls is_success evs = (if on_success hooks then [EOnSuccess] else []) /\
      (on_success hooks = true ->
       exists before : list Effect, evs = before ++ [EOnSuccess])
  | None => calls is_success evs = []
  end.

(** ** A reference instance of the libraries, for concrete runs

    [plain_parse_query] follows [urlparse] and [parse_qs] on paths without
    percent escapes: the fragment is cut at the first [#], the query starts
    after the first [?], pairs are separated by [&], a pair without [=] or
    with a blank value is dropped, and the values of a key keep their
    order. *)

Fixpoint split_first (c : Ascii.ascii) (s : string) : string * option string :=
  match s with
  | EmptyString => (EmptyString, None)
  | String a s' =>
      if Ascii.eqb a c then (EmptyString, Some s')
      else let r := split_first c s' in (String a (fst r), snd r)
  end.

Fixpoint split_all (c : Ascii.ascii) (s : string) : list string :=
  match s with
  | EmptyString => [EmptyString]
  | String a s' =>
      if Ascii.eqb a c then EmptyString :: split_all c s'
      else match split_all c s' with
           | x :: r => String a x :: r
           | [] => [String a EmptyString]
           end
  end.

Definition add_value (kv : string * string)
    (m : gmap string (string * list string)) : gmap string (string * list string) :=
  match m !! fst kv with
  | Some vs => <[fst kv := (snd kv, fst vs :: snd vs)]> m
  | None => <[fst kv := (snd kv, [])]> m
  end.

Definition query_pairs (query : string) : list (string * string) :=
  omap (fun piece =>
          match split_first "=" piece with
          | (k, Some v) => if String.eqb v "" then None else Some (k, v)
          | (_, None) => None
          end)
       (split_all "&" query).

Definition plain_parse_query (path : string) : gmap string (string * list string) :=
  match snd (split_first "?" (fst (split_first "#" path))) with
  | Some query => foldr add_value ∅ (query_pairs query)
  | None => ∅
  end.

Definition demo_token : TokenInfo :=
  mkTokenInfo "BQD-access" "AQC-refresh" "Bearer" "streaming" 1700003600.

Definition fresh_token : TokenInfo :=
  mkTokenInfo "BQD-new" "AQC-refresh" "Bearer" "streaming" 1700007200.

(** The token endpoint accepts the code [ABC123] and nothing else, and
    rejects every refresh token. *)
Definition demo_lib : Library :=
  mkLibrary
    (fun _ => Some 8888)
    plain_parse_query
    (fun t => Z.leb (expires_at t) 1700000000)
    (fun _ => Err "invalid_grant")
    (fun code => if String.eqb code "ABC123" then Ok fresh_token else Err "invalid_grant")
    (fun o => "https://accounts.spotify.com/authorize?client_id=" +:+ oa_client_id o).

Definition demo_config : Config :=
  mkConfig "cid" "secret" "http://localhost:8888/callback" "streaming"
           "/cache/.spotify_token_cache".

Definition all_hooks : Hooks := mkHooks true true true.

(** A process that has just started: nothing cached, nothing bound, and the
    given inbound traffic. *)
Definition boot (files : gmap string file) (traffic : nat -> Inbound) : World :=
  mkWorld files ∅ CallbackHandler.empty None traffic 0 0 [].

(** Traffic given as a finite list, followed by silence. *)
Definition then_silence (evs : list Inbound) : nat -> Inbound :=
  fun n => nth n evs NoRequest.

Definition silence : nat -> Inbound := fun _ => NoRequest.

Definition expired_token : TokenInfo :=
  mkTokenInfo "BQD-old" "AQC-refresh" "Bearer" "streaming" 1600000000.

Definition cache_with (t : TokenInfo) : gmap string file :=
  {[ token_cache_path demo_config := TokenFile t ]}.

(** A browser that first lets the listener time out once, then asks for
    the favicon, then comes back with the redirect. *)
Definition code_traffic : nat -> Inbound :=
  then_silence [NoRequest; Get "/favicon.ico"; Get "/callback?code=ABC123"].

Definition denied_traffic : nat -> Inbound :=
  then_silence [NoRequest; Get "/favicon.ico"; Get "/callback?error=access_denied"].

(** ** Points of the flow, named for the statements *)

Section Points.

Variable lib : Library.
Variable config : Config.

(** [steps server k w]: the world after [k] calls of [handle_request]. *)
Definition steps (server : Server) (k : nat) (w : World) : World :=
  Nat.iter k (handle_request lib server) w.

(** The server [authenticate] creates. *)
Definition callback_server : Server := mkServer (callback_port lib config) 120.

(** The world once [_get_oauth] has run. *)
Definition with_session (w : World) : World :=
  set_oauth (Some (new_oauth config)) w.

(** The world after an optional hook was called. *)
Definition notified (given : bool) (e : Effect) (w : World) : World :=
  if given then log e w else w.

(** The world after [server.server_close()]. *)
Definition closed (w : World) : World :=
  set_bound (bound w ∖ {[callback_port lib config]})
            (log (EClose (callback_port lib config)) w).

(** The world after spotipy stored the token [t]. *)
Definition stored (t : TokenInfo) (w : World) : World :=
  set_fs (<[token_cache_path config := TokenFile t]> (fs w)) w.

(** Lines 150-169 of [authenticate]: what follows the accept loop. *)
Definition conclude (hooks : Hooks) : Flow (option TokenInfo) :=
  (server_close callback_server ;;
   h <- read handler ;;
   if truthy (CallbackHandler.error h)
   then call_hook (on_error hooks) (EOnError (default "" (CallbackHandler.error h))) ;;
        ret None
   else if truthy (CallbackHandler.auth_code h)
   then try_except
          (t <- oauth_get_access_token lib (new_oauth config)
                  (default "" (CallbackHandler.auth_code h)) ;;
           call_hook (on_success hooks) EOnSuccess ;;
           ret (Some t))
          (fun msg => call_hook (on_error hooks) (EOnError msg) ;; ret None)
   else ret None)%flow.

(** The world when the accept loop is entered (lines 123-144): mailbox
    reset, port bound, browser opened, waiting hook called. *)
Definition listening (hooks : Hooks) (w : World) : World :=
  let port := callback_port lib config in
  let w1 := set_handler CallbackHandler.empty (with_session w) in
  let w2 := set_bound ({[port]} ∪ bound w) (log (EBind port) w1) in
  let w3 := log (EOpenBrowser (get_authorize_url lib (new_oauth config))) w2 in
  if on_waiting hooks then log EOnWaiting w3 else w3.

(** The world in which the [k]-th accept of the attempt, a GET request,
    has just been answered. *)
Definition answered (hooks : Hooks) (k : nat) (w : World) : World :=
  handle_request lib callback_server (steps callback_server k (listening hooks w)).

(** The mailbox as [authenticate] run with [fuel] leaves it: after the call
    when the fuel suffices, and otherwise at the point of the accept loop
    the fuel reaches. *)
Definition mailbox (hooks : Hooks) (w : World) (fuel : nat) : CallbackHandler.t :=
  handler (world_of (authenticate lib config fuel hooks w)).

End Points.

(** ** The rest of [SpotifyAuth] *)

(** [spotipy.Spotify(auth=...)]: the API client, known by its token. *)
Record Spotify := mkSpotify {
  auth : string
}.

Section AuthRest.

Variable lib : Library.
Variable config : Config.

Definition get_spotify_client : Flow (option Spotify) :=
  token_info <- get_cached_token lib config ;;
  match token_info with
  | Some t => ret (Some (mkSpotify (access_token t)))
  | None => ret None
  end.

End AuthRest.

(** A token endpoint that answers every refresh with [fresh_token]. *)
Definition renewing_lib : Library :=
  mkLibrary (urlparse_port demo_lib) (parse_query demo_lib)
            (is_token_expired demo_lib)
            (fun _ => Ok fresh_token)
            (get_access_token demo_lib) (get_authorize_url demo_lib).

(** A browser that comes back with a code the token endpoint rejects. *)
Definition stale_code_traffic : nat -> Inbound :=
  then_silence [Get "/callback?code=USED-TWICE"].

Definition is_waiting (e : Effect) : bool :=
  match e with EOnWaiting => true | _ => false end.
Definition is_close (e : Effect) : bool :=
  match e with EClose _ => true | _ => false end.

(** ** [api/client.py]: the API client wrapper *)

(** Values the Web API hands back: parsed JSON, as Python sees it. *)
#[local] Set Warnings "-register-all".
Inductive json :=
| JNull
| JBool (b : bool)
| JNum (n : Z)
| JStr (s : string)
| JList (items : list json)
| JDict (fields : list (string * json))
| JReal (numerator : Z) (denominator : positive).   (* a float, as the ratio it is *)

(** Python truthiness. *)
Definition py_bool (v : json) : bool :=
  match v with
  | JNull => false
  | JBool b => b
  | JNum n => negb (Z.eqb n 0)
  | JStr s => negb (String.eqb s "")
  | JList items => match items with [] => false | _ => true end
  | JDict fields => match fields with [] => false | _ => true end
  | JReal numerator _ => negb (Z.eqb numerator 0)
  end.

(** The fields of a dict, with unique keys: [key in d] and [d[key]]. *)
Fixpoint dict_lookup (fields : list (string * json)) (key : string) : option json :=
  match fields with
  | [] => None
  | (k, v) :: rest => if String.eqb k key then Some v else dict_lookup rest key
  end.

(** [d.get(key, default)] *)
Definition dict_get (fields : list (string * json)) (key : string) (default : json)
  : json :=
  match dict_lookup fields key with
  | Some v => v
  | None => default
  end.

(** The calls of the spotipy client the wrapper makes. *)
Inductive ApiCall :=
| CurrentPlayback
| StartPlayback (device_id : option string)
| PausePlayback (device_id : option string)
| NextTrack (device_id : option string)
| PreviousTrack (device_id : option string)
| SeekTrack (position_ms : Z) (device_id : option string)
| Volume (volume_percent : Z) (device_id : option string)
| Shuffle (state : bool) (device_id : option string)
| Repeat (state : string) (device_id : option string).

(** What a call comes back with: a value, [spotipy.SpotifyException], or
    any other exception (a network error, say). *)
Inductive ApiResult :=
| ApiOk (v : json)
| ApiSpotifyException (msg : string)
| ApiOtherException (name : string).

Inductive Exception :=
| RuntimeError (msg : string)
| SpotifyException (msg : string)
| OtherException (name : string).

Module SpotifyClient.

(** [PlaybackState]: the fields hold whatever the response held. *)
Record PlaybackState := mkPlaybackState {
  is_playing : json;
  track : json;
  device : json;
  progress_ms : json;
  duration_ms : json;
  shuffle_state : json;
  repeat_state : json;
  volume_percent : json;
  context : json
}.

(** [PlaybackState()] *)
Definition default_state : PlaybackState :=
  mkPlaybackState (JBool false) JNull JNull (JNum 0) (JNum 0) (JBool false)
                  (JStr "off") (JNum 50) JNull.

(** The client object: the auth side it shares ([self.auth], with the
    files and the token endpoint behind it), [self._sp], and the API calls
    made so far. *)
Record t := mk {
  session : World;
  _sp : option Spotify;
  api_calls : list ApiCall
}.

Inductive Outcome (A : Type) :=
| Returns (a : A) (c : t)
| Raises (exc : Exception) (c : t).
Arguments Returns {A} a c.
Arguments Raises {A} exc c.

Definition state_of {A} (o : Outcome A) : t :=
  match o with Returns _ c | Raises _ c => c end.

Definition Flow (A : Type) : Type := t -> Outcome A.

Definition ret {A} (a : A) : Flow A := fun c => Returns a c.
Definition raise {A} (exc : Exception) : Flow A := fun c => Raises exc c.
Definition bind {A B} (m : Flow A) (k : A -> Flow B) : Flow B :=
  fun c => match m c with
           | Returns a c' => k a c'
           | Raises exc c' => Raises exc c'
           end.

(** [try: m  except spotipy.SpotifyException: h] *)
Definition except_spotify {A} (m : Flow A) (h : Flow A) : Flow A :=
  fun c => match m c with
           | Raises (SpotifyException _) c' => h c'
           | o => o
           end.

Declare Scope client_scope.
Delimit Scope client_scope with client.
Notation "x <- m ;; k" := (bind m (fun x => k))
  (at level 100, m at next level, right associativity) : client_scope.
Notation "m ;; k" := (bind m (fun _ => k))
  (at level 100, right associativity) : client_scope.

Section Client.

Variable lib : Library.
Variable config : Config.

(** The Web API: what a call made with a given client answers, after the
    calls made before it. *)
Variable web_api : Spotify -> list ApiCall -> ApiCall -> ApiResult.

Local Open Scope client_scope.

(** [self.auth.get_cached_token()], run on the auth side.  It has no
    accept loop; an exception of the token endpoint comes through as it
    is. *)
Definition auth_get_cached_token : Flow (option TokenInfo) :=
  fun c => match get_cached_token lib config (session c) with
           | Returned a w => Returns a (mk w (_sp c) (api_calls c))
           | Raised exc w => Raises (OtherException exc) (mk w (_sp c) (api_calls c))
           | Waiting w => Raises (OtherException "unreachable") (mk w (_sp c) (api_calls c))
           end.

(** The property [sp]. *)
Definition sp : Flow Spotify :=
  fun c => match _sp c with
           | Some s => Returns s c
           | None => Raises (RuntimeError "Not authenticated. Call authenticate() first.") c
           end.

Definition is_authenticated (c : t) : bool :=
  match _sp c with Some _ => true | None => false end.

Definition authenticate : Flow bool :=
  token_info <- auth_get_cached_token ;;
  match token_info with
  | Some tok =>
      fun c => Returns true (mk (session c) (Some (mkSpotify (access_token tok)))
                                 (api_calls c))
  | None => ret false
  end.

Definition _ensure_authenticated : Flow unit :=
  fun c => if is_authenticated c then Returns tt c
           else Raises (RuntimeError "Not authenticated") c.

(** [self.sp.<method>(...)]: one call of the Web API. *)
Definition call (request : ApiCall) : Flow json :=
  s <- sp ;;
  fun c => let c' := mk (session c) (_sp c) (api_calls c ++ [request]) in
           match web_api s (api_calls c) request with
           | ApiOk v => Returns v c'
           | ApiSpotifyException msg => Raises (SpotifyException msg) c'
           | ApiOtherException name => Raises (OtherException name) c'
           end.

(** [v.get(key, default)] on a value that may not be a dict. *)
Definition attr_get (v : json) (key : string) (default : json) : Flow json :=
  match v with
  | JDict fields => ret (dict_get fields key default)
  | _ => raise (OtherException "AttributeError")
  end.

Definition get_playback_state : Flow (option PlaybackState) :=
  _ensure_authenticated ;;
  except_spotify
    (current <- call CurrentPlayback ;;
     if negb (py_bool current) then ret (Some default_state)
     else
       is_playing_ <- attr_get current "is_playing" (JBool false) ;;
       track_ <- attr_get current "item" JNull ;;
       device_ <- attr_get current "device" JNull ;;
       progress <- attr_get current "progress_ms" (JNum 0) ;;
       let progress_ms_ := if py_bool progress then progress else JNum 0 in
       duration_ms_ <- (if py_bool track_
                        then item <- attr_get current "item" (JDict []) ;;
                             attr_get item "duration_ms" (JNum 0)
                        else ret (JNum 0)) ;;
       shuffle_state_ <- attr_get current "shuffle_state" (JBool false) ;;
       repeat_state_ <- attr_get current "repeat_state" (JStr "off") ;;
       volume_percent_ <- (if py_bool device_
                           then dev <- attr_get current "device" (JDict []) ;;
                                attr_get dev "volume_percent" (JNum 50)
                           else ret (JNum 50)) ;;
       context_ <- attr_get current "context" JNull ;;
       ret (Some (mkPlaybackState is_playing_ track_ device_ progress_ms_
                                  duration_ms_ shuffle_state_ repeat_state_
                                  volume_percent_ context_)))
    (ret None).

Definition play (device_id : option string) : Flow bool :=
  _ensure_authenticated ;;
  except_spotify (call (StartPlayback device_id) ;; ret true) (ret false).

Definition pause (device_id : option string) : Flow bool :=
  _ensure_authenticated ;;
  except_spotify (call (PausePlayback device_id) ;; ret true) (ret false).

Definition toggle_playback (device_id : option string) : Flow bool :=
  state <- get_playback_state ;;
  match state with
  | Some st => if py_bool (is_playing st) then pause device_id else play device_id
  | None => play device_id
  end.

Definition next_track (device_id : option string) : Flow bool :=
  _ensure_authenticated ;;
  except_spotify (call (NextTrack device_id) ;; ret true) (ret false).

Definition previous_track (device_id : option string) : Flow bool :=
  _ensure_authenticated ;;
  except_spotify (call (PreviousTrack device_id) ;; ret true) (ret false).

Definition seek (position_ms : Z) (device_id : option string) : Flow bool :=
  _ensure_authenticated ;;
  except_spotify (call (SeekTrack position_ms device_id) ;; ret true) (ret false).

Definition set_volume (volume_percent : Z) (device_id : option string) : Flow bool :=
  _ensure_authenticated ;;
  let volume_percent := Z.max 0 (Z.min 100 volume_percent) in
  except_spotify (call (Volume volume_percent device_id) ;; ret true) (ret false).

Definition toggle_shuffle (device_id : option string) : Flow bool :=
  _ensure_authenticated ;;
  state <- get_playback_state ;;
  match state with
  | Some st =>
      except_spotify
        (call (Shuffle (negb (py_bool (shuffle_state st))) device_id) ;; ret true)
        (ret false)
  | None => ret false
  end.

(** [{"off": "context", "context": "track", "track": "off"}.get(key, "off")];
    a list or a dict as the key is unhashable. *)
Definition next_repeat_state (key : json) : Flow string :=
  match key with
  | JStr s =>
      ret (if String.eqb s "off" then "context"
           else if String.eqb s "context" then "track"
           else "off")
  | JList _ | JDict _ => raise (OtherException "TypeError")
  | JNull | JBool _ | JNum _ | JReal _ _ => ret "off"
  end.

Definition cycle_repeat (device_id : option string) : Flow string :=
  _ensure_authenticated ;;
  state <- get_playback_state ;;
  match state with
  | Some st =>
      next_state <- next_repeat_state (repeat_state st) ;;
      except_spotify
        (call (Repeat next_state device_id) ;; ret next_state)
        (ret "off")
  | None => ret "off"
  end.

End Client.

End SpotifyClient.

(** A value on which [.get] is never attempted or works: falsy, or a
    dict. *)
Definition falsy_or_dict (v : json) : bool :=
  match v with
  | JDict _ => true
  | _ => negb (py_bool v)
  end.

(** The client after one more API call. *)
Definition called (request : ApiCall) (c : SpotifyClient.t) : SpotifyClient.t :=
  SpotifyClient.mk (SpotifyClient.session c) (SpotifyClient._sp c)
                   (SpotifyClient.api_calls c ++ [request]).

(** What a command made of one API call comes to. *)
Definition one_call (answer : ApiResult) (c' : SpotifyClient.t)
  : SpotifyClient.Outcome bool :=
  match answer with
  | ApiOk _ => SpotifyClient.Returns true c'
  | ApiSpotifyException _ => SpotifyClient.Returns false c'
  | ApiOtherException name => SpotifyClient.Raises (OtherException name) c'
  end.

(** What [cycle_repeat] comes to once it has asked for the mode [next]. *)
Definition repeat_outcome (next : string) (answer : ApiResult) (c' : SpotifyClient.t)
  : SpotifyClient.Outcome string :=
  match answer with
  | ApiOk _ => SpotifyClient.Returns next c'
  | ApiSpotifyException _ => SpotifyClient.Returns "off" c'
  | ApiOtherException name => SpotifyClient.Raises (OtherException name) c'
  end.

(** A player for concrete runs: it is playing on one device, repeat mode
    [context], and accepts every command. *)
Definition playing_now : json :=
  JDict [("is_playing", JBool true);
         ("progress_ms", JNull);
         ("item", JDict [("name", JStr "So What"); ("duration_ms", JNum 562000)]);
         ("repeat_state", JStr "context")].

Definition demo_api (s : Spotify) (before : list ApiCall) (request : ApiCall)
  : ApiResult :=
  match request with
  | CurrentPlayback => ApiOk playing_now
  | _ => ApiOk JNull
  end.

Definition demo_client (w : World) : SpotifyClient.t :=
  SpotifyClient.mk w (Some (mkSpotify "BQD-access")) [].

(** ** [utils/formatting.py] *)

(** [f"{n:02d}"]: zero-padded to two characters, sign included. *)
Definition format_02d (n : Z) : string :=
  if (String.length (pretty n) <? 2)%nat then "0" +:+ pretty n else pretty n.

(** Python's [//] and [%] with a positive divisor are [Z.div] and
    [Z.modulo]: rounding down, remainder never negative. *)
Definition format_duration (ms : option Z) : string :=
  match ms with
  | None => "--:--"
  | Some ms =>
      let total_seconds := ms / 1000 in
      let minutes := total_seconds / 60 in
      let seconds := total_seconds mod 60 in
      pretty minutes +:+ ":" +:+ format_02d seconds
  end.

(** The first [n] characters; a text is taken as the sequence of its
    characters, which is what [len] and slicing count. *)
Fixpoint str_take (n : nat) (s : string) : string :=
  match n, s with
  | S n', String a s' => String a (str_take n' s')
  | _, _ => EmptyString
  end.

(** [text[:stop]]: a negative [stop] counts from the end. *)
Definition slice_to (text : string) (stop : Z) : string :=
  let len := Z.of_nat (String.length text) in
  str_take (Z.to_nat (if Z.ltb stop 0 then Z.max 0 (len + stop) else stop)) text.

Definition truncate_text (text : string) (max_length : Z) (suffix : string) : string :=
  if Z.leb (Z.of_nat (String.length text)) max_length then text
  else slice_to text (max_length - Z.of_nat (String.length suffix)) +:+ suffix.

(** [images[i].get("url")]; an index out of range raises. *)
Definition image_url (images : list (list (string * json))) (i : nat) : Result json :=
  match images !! i with
  | Some image => Ok (dict_get image "url" JNull)
  | None => Err "IndexError"
  end.

Definition get_album_art_url (images : list (list (string * json))) (size : string)
  : Result json :=
  match images with
  | [] => Ok JNull
  | _ =>
      if String.eqb size "large" && (0 <? length images)%nat then image_url images 0
      else if String.eqb size "medium" && (1 <? length images)%nat
      then image_url images 1
      else if String.eqb size "small" && (2 <? length images)%nat
      then image_url images 2
      else match images with
           | [] => Ok JNull
           | _ => image_url images 0
           end
  end.

(** [for a in v]: a list gives its items, a string its characters, a dict
    its keys; nothing else can be iterated. *)
Definition py_iter (v : json) : Result (list json) :=
  match v with
  | JList items => Ok items
  | JStr s => Ok (map (fun ch => JStr (String ch EmptyString)) (list_ascii_of_string s))
  | JDict fields => Ok (map (fun kv => JStr (fst kv)) fields)
  | _ => Err "TypeError"
  end.

(** [a.get("name", "Unknown") for a in artists], evaluated in order. *)
Fixpoint artist_names (artists : list json) : Result (list json) :=
  match artists with
  | [] => Ok []
  | JDict fields :: rest =>
      match artist_names rest with
      | Ok names => Ok (dict_get fields "name" (JStr "Unknown") :: names)
      | Err exc => Err exc
      end
  | _ :: _ => Err "AttributeError"
  end.

(** [sep.join(items)]: every item has to be a string. *)
Fixpoint str_join (sep : string) (items : list json) : Result string :=
  match items with
  | [] => Ok EmptyString
  | [JStr s] => Ok s
  | JStr s :: rest =>
      match str_join sep rest with
      | Ok joined => Ok (s +:+ sep +:+ joined)
      | Err exc => Err exc
      end
  | _ :: _ => Err "TypeError"
  end.

Definition format_artist_names (artists : json) : Result string :=
  match py_iter artists with
  | Ok items =>
      match artist_names items with
      | Ok names => str_join ", " names
      | Err exc => Err exc
      end
  | Err exc => Err exc
  end.

Section TrackInfo.

(** [str(v)], as the f-string applies it to the name. *)
Variable py_str : json -> string.

Definition format_track_info (track : json) : Result string :=
  if negb (py_bool track) then Ok "No track playing"
  else match track with
       | JDict fields =>
           let name := dict_get fields "name" (JStr "Unknown") in
           let artists := dict_get fields "artists" (JList []) in
           match format_artist_names artists with
           | Ok names => Ok (py_str name +:+ " - " +:+ names)
           | Err exc => Err exc
           end
       | _ => Err "AttributeError"
       end.

End TrackInfo.

(** [str] on the values used in concrete runs. *)
Definition demo_str (v : json) : string :=
  match v with
  | JStr s => s
  | JNull => "None"
  | JBool true => "True"
  | JBool false => "False"
  | JNum n => pretty n
  | _ => "?"
  end.

(** ** [utils/config.py]: the class [Config] *)

(** [d[key] = value]: a present key keeps its place. *)
Fixpoint dict_set (fields : list (string * json)) (key : string) (value : json)
  : list (string * json) :=
  match fields with
  | [] => [(key, value)]
  | (k, v) :: rest =>
      if String.eqb k key then (k, value) :: rest
      else (k, v) :: dict_set rest key value
  end.

Module ConfigStore.

(** What opening and parsing the configuration file can meet. *)
Inductive content :=
| Json (v : json)          (* parses, to this value *)
| NotJson (raw : string)   (* json.JSONDecodeError *)
| Unreadable               (* OSError on open or read *)
| NotText.                 (* UnicodeDecodeError while reading *)

(** The object: its two paths and [self._config]. *)
Record t := mk {
  config_file : string;
  token_cache_file : string;
  _config : json
}.

Definition _default_config : json :=
  JDict [("client_id", JStr "");
         ("client_secret", JStr "");
         ("redirect_uri", JStr "http://localhost:8888/callback");
         ("theme", JStr "spotify");
         ("refresh_interval", JReal 1 1);
         ("show_album_art", JBool true);
         ("default_volume", JNum 50)].

(** [_load_config]: only [JSONDecodeError] and [OSError] are caught. *)
Definition _load_config (disk : gmap string content) (path : string) : Result json :=
  match disk !! path with
  | Some (Json v) => Ok v
  | Some (NotJson _) => Ok _default_config
  | Some Unreadable => Ok _default_config
  | Some NotText => Err "UnicodeDecodeError"
  | None => Ok _default_config
  end.

(** [Config()], with the two paths [platformdirs] gives. *)
Definition init (disk : gmap string content) (config_path cache_path : string)
  : Result t :=
  match _load_config disk config_path with
  | Ok v => Ok (mk config_path cache_path v)
  | Err exc => Err exc
  end.

(** [self._config.get(key, default)] *)
Definition get (c : t) (key : string) (default : json) : Result json :=
  match _config c with
  | JDict fields => Ok (dict_get fields key default)
  | _ => Err "AttributeError"
  end.

(** [self._config[key] = value] *)
Definition set (c : t) (key : string) (value : json) : Result t :=
  match _config c with
  | JDict fields =>
      Ok (mk (config_file c) (token_cache_file c) (JDict (dict_set fields key value)))
  | _ => Err "TypeError"
  end.

Definition client_id (c : t) : Result json := get c "client_id" (JStr "").
Definition client_secret (c : t) : Result json := get c "client_secret" (JStr "").
Definition redirect_uri (c : t) : Result json :=
  get c "redirect_uri" (JStr "http://localhost:8888/callback").

Definition set_client_id (c : t) (value : json) : Result t := set c "client_id" value.
Definition set_client_secret (c : t) (value : json) : Result t :=
  set c "client_secret" value.
Definition set_redirect_uri (c : t) (value : json) : Result t :=
  set c "redirect_uri" value.

Definition token_cache_path (c : t) : string := token_cache_file c.

(** [bool(self.client_id and self.client_secret)] *)
Definition is_configured (c : t) : Result bool :=
  match client_id c with
  | Err exc => Err exc
  | Ok id =>
      if py_bool id
      then match client_secret c with
           | Ok secret => Ok (py_bool secret)
           | Err exc => Err exc
           end
      else Ok (py_bool id)
  end.

End ConfigStore.

(** ** Hooks that may raise

    The three hooks of [authenticate] are callables of the caller.  Above,
    a hook that was passed is called and returns.  A callable can raise
    instead, and where it is called matters: [on_success()] on the exchange
    path stands inside the [try] of lines 158-167, so [except Exception]
    catches what it raises, reports it through [on_error] and the method
    returns [None]; everywhere else the exception leaves [authenticate].
    [Fallible] is the same code with hooks of either kind. *)
Module Fallible.

(** What a callable does when it is called: it returns, or it raises an
    [Exception] [e] with [str(e) = exc].  (What is raised outside
    [Exception], such as [KeyboardInterrupt], no handler here catches: such
    a call never lets [authenticate] return.) *)
Inductive Hook :=
| Returning
| Raising (exc : string).

(** The arguments of [authenticate]: [None] when no callable was passed. *)
Record Hooks := mkHooks {
  on_waiting : option Hook;
  on_success : option Hook;
  on_error : option Hook
}.

(** [if hook: hook(...)] *)
Definition call_hook (hook : option Hook) (e : Effect) : Flow unit :=
  match hook with
  | None => ret tt
  | Some Returning => emit e
  | Some (Raising exc) => emit e ;; raise exc
  end.

Section Auth.

Variable lib : Library.
Variable config : Config.

Definition authenticate (fuel : nat) (hooks : Hooks) : Flow (option TokenInfo) :=
  token_info <- get_cached_token lib config ;;
  match token_info with
  | Some t => call_hook (on_success hooks) EOnSuccess ;; ret (Some t)
  | None =>
      oauth <- _get_oauth config ;;
      let port := callback_port lib config in
      update (set_handler CallbackHandler.empty) ;;
      bound_port <- HTTPServer port ;;
      let server := mkServer bound_port 120 in
      let auth_url := get_authorize_url lib oauth in
      emit (EOpenBrowser auth_url) ;;
      call_hook (on_waiting hooks) EOnWaiting ;;
      wait_for_callback lib fuel server ;;
      server_close server ;;
      h <- read handler ;;
      if truthy (CallbackHandler.error h)
      then call_hook (on_error hooks) (EOnError (default "" (CallbackHandler.error h))) ;;
           ret None
      else if truthy (CallbackHandler.auth_code h)
      then try_except
             (t <- oauth_get_access_token lib oauth
                     (default "" (CallbackHandler.auth_code h)) ;;
              call_hook (on_success hooks) EOnSuccess ;;
              ret (Some t))
             (fun msg => call_hook (on_error hooks) (EOnError msg) ;; ret None)
      else ret None
  end.

(** Lines 150-169 of [authenticate]: what follows the accept loop. *)
Definition conclude (hooks : Hooks) : Flow (option TokenInfo) :=
  server_close (callback_server lib config) ;;
  h <- read handler ;;
  if truthy (CallbackHandler.error h)
  then call_hook (on_error hooks) (EOnError (default "" (CallbackHandler.error h))) ;;
       ret None
  else if truthy (CallbackHandler.auth_code h)
  then try_except
         (t <- oauth_get_access_token lib (new_oauth config)
                 (default "" (CallbackHandler.auth_code h)) ;;
          call_hook (on_success hooks) EOnSuccess ;;
          ret (Some t))
         (fun msg => call_hook (on_error hooks) (EOnError msg) ;; ret None)
  else ret None.

End Auth.

End Fallible.

(** Whether a callable was passed, and whether the one passed raises. *)
Definition passed (hook : option Fallible.Hook) : bool :=
  match hook with Some _ => true | None => false end.

Definition raises (hook : option Fallible.Hook) : bool :=
  match hook with Some (Fallible.Raising _) => true | _ => false end.

(** The hooks as [authenticate] above takes them. *)
Definition hooks_of (hooks : Fallible.Hooks) : Hooks :=
  mkHooks (passed (Fallible.on_waiting hooks)) (passed (Fallible.on_success hooks))
          (passed (Fallible.on_error hooks)).




(** ** The accept loop *)

Section Loop.

Variable lib : Library.
Variable server : Server.

Lemma steps_S k w : steps lib server (S k) w = steps lib server k (handle_request lib server w).
Proof. unfold steps. now rewrite Nat.iter_succ_r. Qed.

Lemma handle_request_frame w :
  let w' := handle_request lib server w in
  fs w' = fs w /\ bound w' = bound w /\ _oauth w' = _oauth w /\
  inbound w' = inbound w /\ accepted w' = S (accepted w).
Proof. unfold handle_request. destruct (inbound w (accepted w)); simpl; auto. Qed.

Lemma steps_frame k : forall w,
  fs (steps lib server k w) = fs w /\ bound (steps lib server k w) = bound w /\
  _oauth (steps lib server k w) = _oauth w /\ inbound (steps lib server k w) = inbound w /\
  accepted (steps lib server k w) = (accepted w + k)%nat.
Proof.
  induction k as [|k IH]; intros w.
  - cbn. rewrite Nat.add_0_r. repeat split.
  - rewrite steps_S.
    destruct (IH (handle_request lib server w)) as (Hf & Hb & Ho & Hi & Ha).
    destruct (handle_request_frame w) as (Hf' & Hb' & Ho' & Hi' & Ha').
    rewrite Hf, Hb, Ho, Hi, Ha, Hf', Hb', Ho', Hi', Ha'.
    repeat split; auto; lia.
Qed.

(** A quiet accept leaves the mailbox alone and answers, if at all, with
    an empty 400. *)
Lemma handle_request_quiet w :
  quiet lib (inbound w (accepted w)) ->
  let w' := handle_request lib server w in
  handler w' = handler w /\
  (trace w' = trace w \/
   trace w' = trace w ++ [ERespond (mkResponse 400 [] EmptyBody)]).
Proof.
  unfold handle_request, quiet.
  destruct (inbound w (accepted w)) as [|path]; simpl.
  - auto.
  - intros [Hc He]. unfold do_GET. rewrite Hc, He. simpl. auto.
Qed.

Lemma quiet_until_S w k :
  quiet_until lib w (S k) ->
  quiet lib (inbound w (accepted w)) /\
  quiet_until lib (handle_request lib server w) k.
Proof.
  intros H. split.
  - specialize (H 0%nat). rewrite Nat.add_0_r in H. apply H. lia.
  - intros i Hi.
    destruct (handle_request_frame w) as (_ & _ & _ & Hin & Hacc).
    rewrite Hin, Hacc.
    replace (S (accepted w) + i)%nat with (accepted w + S i)%nat by lia.
    apply H. lia.
Qed.

Lemma steps_quiet k : forall w,
  quiet_until lib w k ->
  handler (steps lib server k w) = handler w /\
  exists evs, trace (steps lib server k w) = trace w ++ evs /\
              Forall (fun e => e = ERespond (mkResponse 400 [] EmptyBody)) evs.
Proof.
  induction k as [|k IH]; intros w Hq.
  - simpl. split; [reflexivity|]. exists []. now rewrite app_nil_r.
  - rewrite steps_S.
    destruct (quiet_until_S _ _ Hq) as [Hq0 Hqk].
    destruct (handle_request_quiet w Hq0) as [Hh Ht].
    destruct (IH _ Hqk) as [Hh' (evs & Ht' & Hall)].
    split; [congruence|].
    destruct Ht as [Ht|Ht]; rewrite Ht in Ht'.
    + exists evs. auto.
    + exists (ERespond (mkResponse 400 [] EmptyBody) :: evs).
      rewrite Ht', <- app_assoc. simpl. auto.
Qed.

(** While the mailbox is empty the loop goes round once more. *)
Lemma wait_step fuel w :
  handler w = CallbackHandler.empty ->
  wait_for_callback lib (S fuel) server w =
  wait_for_callback lib fuel server (handle_request lib server w).
Proof. intros H. simpl. now rewrite H. Qed.

Lemma wait_stop fuel w :
  handler w <> CallbackHandler.empty ->
  wait_for_callback lib fuel server w = Returned tt w.
Proof.
  intros H. destruct (handler w) as [[c|] [e|]] eqn:E;
    destruct fuel; simpl; rewrite E; try reflexivity; now destruct H.
Qed.

Lemma wait_quiet k : forall fuel w,
  handler w = CallbackHandler.empty ->
  quiet_until lib w k ->
  wait_for_callback lib (k + fuel) server w =
  wait_for_callback lib fuel server (steps lib server k w).
Proof.
  induction k as [|k IH]; intros fuel w Hh Hq.
  - reflexivity.
  - rewrite steps_S. simpl Nat.add. rewrite wait_step by exact Hh.
    destruct (quiet_until_S _ _ Hq) as [Hq0 Hqk].
    apply IH; [|exact Hqk].
    destruct (handle_request_quiet w Hq0) as [Hh' _]. congruence.
Qed.

Lemma wait_out_of_fuel w :
  handler w = CallbackHandler.empty ->
  wait_for_callback lib 0 server w = Waiting w.
Proof. intros H. simpl. now rewrite H. Qed.

End Loop.


(** ** The orchestrator, path by path *)

Lemma HTTPServer_free port w :
  port ∉ bound w ->
  HTTPServer port w =
  Returned port (set_bound ({[port]} ∪ bound w) (log (EBind port) w)).
Proof.
  intros H. unfold HTTPServer, bind, emit, update, read. simpl.
  destruct (decide (port ∈ bound w)); [contradiction|reflexivity].
Qed.

Lemma HTTPServer_taken port w :
  port ∈ bound w ->
  HTTPServer port w =
  Raised "OSError: [Errno 98] Address already in use" (log (EBind port) w).
Proof.
  intros H. unfold HTTPServer, bind, emit, update, read. simpl.
  destruct (decide (port ∈ bound w)); [reflexivity|contradiction].
Qed.

Section Paths.

Variable lib : Library.
Variable config : Config.

Let oauth := new_oauth config.
Let port := callback_port lib config.
Let server := mkServer port 120.

Lemma _get_oauth_ok w :
  session_ok config w ->
  _get_oauth config w = Returned oauth (with_session config w).
Proof.
  intros [H|H]; unfold _get_oauth, bind, read, with_session; rewrite H.
  - reflexivity.
  - unfold ret. f_equal. destruct w; simpl in *. now subst.
Qed.

Lemma with_session_ok w : session_ok config (with_session config w).
Proof. right. reflexivity. Qed.

Lemma with_session_idem w : with_session config (with_session config w) = with_session config w.
Proof. reflexivity. Qed.

Lemma get_cached_token_miss w :
  session_ok config w ->
  cached_record config w = None ->
  get_cached_token lib config w = Returned None (with_session config w).
Proof.
  intros Hs Hc. unfold get_cached_token, bind.
  rewrite (_get_oauth_ok w Hs).
  unfold oauth_get_cached_token, read, cached_record in *. simpl.
  destruct (fs w !! token_cache_path config) as [[t|raw]|]; try discriminate;
    reflexivity.
Qed.

Lemma get_cached_token_valid w t :
  session_ok config w ->
  cached_record config w = Some t ->
  is_token_expired lib t = false ->
  get_cached_token lib config w = Returned (Some t) (with_session config w).
Proof.
  intros Hs Hc He. unfold get_cached_token, bind.
  rewrite (_get_oauth_ok w Hs).
  unfold oauth_get_cached_token, read, cached_record in *. simpl.
  destruct (fs w !! token_cache_path config) as [[t'|raw]|]; try discriminate.
  injection Hc as ->. rewrite He. reflexivity.
Qed.

Lemma get_cached_token_refresh_raises w t msg :
  session_ok config w ->
  cached_record config w = Some t ->
  is_token_expired lib t = true ->
  refresh_access_token lib (refresh_token t) = Err msg ->
  get_cached_token lib config w =
  Raised msg (log (ERefresh (refresh_token t)) (with_session config w)).
Proof.
  intros Hs Hc He Hr. unfold get_cached_token, bind.
  rewrite (_get_oauth_ok w Hs).
  unfold oauth_get_cached_token, read, cached_record in *. simpl.
  destruct (fs w !! token_cache_path config) as [[t'|raw]|]; try discriminate.
  injection Hc as ->. rewrite He.
  unfold oauth_refresh_access_token, bind, emit, update. rewrite Hr. reflexivity.
Qed.

(** On a cache miss with the port free, [authenticate] is the accept loop
    run from [listening], followed by [conclude]. *)
Lemma authenticate_listens fuel hooks w :
  session_ok config w ->
  cached_record config w = None ->
  port ∉ bound w ->
  authenticate lib config fuel hooks w =
  bind (wait_for_callback lib fuel server) (fun _ => conclude lib config hooks)
       (listening lib config hooks w).
Proof.
  intros Hs Hc Hp. unfold authenticate.
  unfold bind at 1. rewrite (get_cached_token_miss w Hs Hc).
  unfold bind at 1. rewrite (_get_oauth_ok _ (with_session_ok w)).
  rewrite with_session_idem.
  unfold bind at 1. unfold update at 1.
  unfold bind at 1. rewrite HTTPServer_free by exact Hp.
  unfold listening. destruct (on_waiting hooks); reflexivity.
Qed.

(** With the port already taken the constructor raises before any browser
    is opened. *)
Lemma authenticate_bind_fails fuel hooks w :
  session_ok config w ->
  cached_record config w = None ->
  port ∈ bound w ->
  authenticate lib config fuel hooks w =
  Raised "OSError: [Errno 98] Address already in use"
         (log (EBind port) (set_handler CallbackHandler.empty (with_session config w))).
Proof.
  intros Hs Hc Hp. unfold authenticate.
  unfold bind at 1. rewrite (get_cached_token_miss w Hs Hc).
  unfold bind at 1. rewrite (_get_oauth_ok _ (with_session_ok w)).
  rewrite with_session_idem.
  unfold bind at 1. unfold update at 1.
  unfold bind at 1. rewrite HTTPServer_taken by exact Hp.
  reflexivity.
Qed.

End Paths.

(** ** Logout *)

(** C6. [logout()] never raises, whether or not the token cache file
    exists; after it no token record is persisted and [self._oauth] is
    unset; a second call in a row returns too and leaves the world exactly
    as the first call left it; with no file to begin with only [_oauth] is
    touched. *)
Theorem logout_idempotent (config : Config) (w : World) :
  exists w1 : World,
    logout config w = Returned tt w1 /\
    fs w1 !! token_cache_path config = None /\
    cached_record config w1 = None /\
    _oauth w1 = None /\
    logout config w1 = Returned tt w1 /\
    logout config (set_fs (delete (token_cache_path config) (fs w)) w) =
      Returned tt (set_oauth None (set_fs (delete (token_cache_path config) (fs w)) w)).
Proof.
  assert (Habsent : forall v : World,
             fs v !! token_cache_path config = None ->
             logout config v = Returned tt (set_oauth None v)).
  { intros v Hv. unfold logout, bind, os_path_exists, read.
    rewrite Hv. rewrite bool_decide_eq_false_2 by (intros [x Hx]; discriminate).
    reflexivity. }
  destruct (fs w !! token_cache_path config) as [f|] eqn:E.
  - exists (set_oauth None (set_fs (delete (token_cache_path config) (fs w)) w)).
    assert (Hgone : fs (set_oauth None
                          (set_fs (delete (token_cache_path config) (fs w)) w))
                      !! token_cache_path config = None)
      by (simpl; apply lookup_delete_eq).
    repeat split.
    + unfold logout, bind, os_path_exists, os_remove, read.
      rewrite bool_decide_eq_true_2 by (rewrite E; eauto).
      rewrite E. reflexivity.
    + exact Hgone.
    + unfold cached_record. now rewrite Hgone.
    + rewrite (Habsent _ Hgone). reflexivity.
    + apply Habsent. simpl. apply lookup_delete_eq.
  - exists (set_oauth None w). repeat split.
    + apply Habsent, E.
    + exact E.
    + unfold cached_record. simpl. now rewrite E.
    + rewrite Habsent by exact E. reflexivity.
    + apply Habsent. simpl. apply lookup_delete_eq.
Qed.

(** ** The callback handler *)

(** C7. A GET request with neither [code] nor [error] is answered with
    status 400 and an empty body and leaves both mailbox fields as they
    were; met while the mailbox is empty it does not end the wait: the loop
    goes round again, and after any number of such accepts it is still
    waiting. *)
Theorem other_requests_do_not_end_the_wait
    (lib : Library) (server : Server) (w : World) (path : string) :
  inbound w (accepted w) = Get path ->
  parse_query lib path !! "code" = None ->
  parse_query lib path !! "error" = None ->
  handler w = CallbackHandler.empty ->
  (forall h, do_GET lib h path = (h, mkResponse 400 [] EmptyBody)) /\
  handler (handle_request lib server w) = CallbackHandler.empty /\
  trace (handle_request lib server w) =
    trace w ++ [ERespond (mkResponse 400 [] EmptyBody)] /\
  wait_for_callback lib 1 server w = Waiting (handle_request lib server w) /\
  (forall fuel, wait_for_callback lib (S fuel) server w =
                wait_for_callback lib fuel server (handle_request lib server w)) /\
  (forall k, quiet_until lib w k ->
             wait_for_callback lib k server w = Waiting (steps lib server k w)).
Proof.
  intros Hin Hc He Hh.
  assert (Hget : forall h, do_GET lib h path = (h, mkResponse 400 [] EmptyBody)).
  { intros h. unfold do_GET. now rewrite Hc, He. }
  assert (Hh' : handler (handle_request lib server w) = CallbackHandler.empty).
  { unfold handle_request. rewrite Hin, Hget. simpl. exact Hh. }
  repeat split.
  - exact Hget.
  - exact Hh'.
  - unfold handle_request. rewrite Hin, Hget. reflexivity.
  - rewrite wait_step by exact Hh. now apply wait_out_of_fuel.
  - intros fuel. now apply wait_step.
  - intros k Hq.
    replace k with (k + 0)%nat at 1 by lia.
    rewrite wait_quiet by assumption.
    apply wait_out_of_fuel.
    destruct (steps_quiet lib server k w Hq) as [Hk _]. congruence.
Qed.

(** C9. A request carrying both [code] and [error] is a success: the code
    is recorded, the answer is 200 with the success page, and the error
    field keeps the value it had. *)
Theorem code_takes_precedence
    (lib : Library) (h : CallbackHandler.t) (path c e : string)
    (rest erest : list string) :
  parse_query lib path !! "code" = Some (c, rest) ->
  parse_query lib path !! "error" = Some (e, erest) ->
  do_GET lib h path =
    (CallbackHandler.mk (Some c) (CallbackHandler.error h),
     mkResponse 200 [("Content-type", "text/html")] SuccessPage) /\
  status (snd (do_GET lib h path)) = 200 /\
  CallbackHandler.auth_code (fst (do_GET lib h path)) = Some c /\
  CallbackHandler.error (fst (do_GET lib h path)) = CallbackHandler.error h.
Proof.
  intros Hc _. unfold do_GET. rewrite Hc. simpl. auto.
Qed.

(** ** After the accept loop *)

Section Conclude.

Variable lib : Library.
Variable config : Config.

Lemma conclude_error hooks w e :
  handler w = CallbackHandler.mk None (Some e) ->
  e <> "" ->
  conclude lib config hooks w =
  Returned None (notified (on_error hooks) (EOnError e) (closed lib config w)).
Proof.
  intros Hh He. unfold conclude, bind, server_close, emit, update, read. simpl.
  rewrite Hh. simpl.
  destruct (String.eqb_spec e "") as [->|_]; [contradiction|]. simpl.
  unfold call_hook, notified. destruct (on_error hooks); reflexivity.
Qed.

Lemma conclude_code hooks w c :
  handler w = CallbackHandler.mk (Some c) None ->
  c <> "" ->
  conclude lib config hooks w =
  match get_access_token lib c with
  | Ok t =>
      Returned (Some t)
        (notified (on_success hooks) EOnSuccess
           (stored config t (log (EExchange c) (closed lib config w))))
  | Err msg =>
      Returned None
        (notified (on_error hooks) (EOnError msg)
           (log (EExchange c) (closed lib config w)))
  end.
Proof.
  intros Hh Hc. unfold conclude, bind, server_close, emit, update, read. simpl.
  rewrite Hh. simpl.
  destruct (String.eqb_spec c "") as [->|_]; [contradiction|]. simpl.
  unfold try_except, oauth_get_access_token, bind, emit, update, save_token.
  destruct (get_access_token lib c) as [t|msg]; simpl;
    unfold call_hook, notified.
  - destruct (on_success hooks); reflexivity.
  - destruct (on_error hooks); reflexivity.
Qed.

(** The first request that carries a result ends the loop. *)
Lemma wait_terminal server fuel k w path :
  handler w = CallbackHandler.empty ->
  quiet_until lib w k ->
  inbound w (accepted w + k)%nat = Get path ->
  fst (do_GET lib CallbackHandler.empty path) <> CallbackHandler.empty ->
  (k < fuel)%nat ->
  wait_for_callback lib fuel server w =
  Returned tt (handle_request lib server (steps lib server k w)) /\
  handler (handle_request lib server (steps lib server k w)) =
    fst (do_GET lib CallbackHandler.empty path) /\
  trace (handle_request lib server (steps lib server k w)) =
    trace (steps lib server k w) ++
    [ERespond (snd (do_GET lib CallbackHandler.empty path))].
Proof.
  intros Hh Hq Hin Hset Hk.
  destruct (steps_quiet lib server k w Hq) as [Hhk _].
  destruct (steps_frame lib server k w) as (_ & _ & _ & Hi & Ha).
  assert (Hstep : handle_request lib server (steps lib server k w) =
                  log (ERespond (snd (do_GET lib CallbackHandler.empty path)))
                      (set_handler (fst (do_GET lib CallbackHandler.empty path))
                                   (next_accept 0 (steps lib server k w)))).
  { unfold handle_request. rewrite Hi, Ha, Hin, Hhk, Hh. reflexivity. }
  repeat split.
  - replace fuel with (k + S (fuel - S k))%nat by lia.
    rewrite wait_quiet by assumption.
    rewrite wait_step by congruence.
    apply wait_stop. rewrite Hstep. exact Hset.
  - rewrite Hstep. reflexivity.
  - rewrite Hstep. reflexivity.
Qed.

End Conclude.

(** ** Traces *)

Lemma port_released (p : Z) (b : gset Z) : p ∉ ({[p]} ∪ b) ∖ {[p]}.
Proof.
  intros H. apply elem_of_difference in H as [_ H]. apply H.
  now apply elem_of_singleton.
Qed.

Lemma calls_app p (a b : list Effect) : calls p (a ++ b) = calls p a ++ calls p b.
Proof. apply List.filter_app. Qed.

Lemma calls_uniform p (e : Effect) (evs : list Effect) :
  Forall (fun x => x = e) evs -> p e = false -> calls p evs = [].
Proof.
  intros H Hp. induction H as [|x l -> _ IH]; simpl.
  - reflexivity.
  - now rewrite Hp.
Qed.

Lemma trace_listening lib config hooks w :
  trace (listening lib config hooks w) =
  trace w ++ [EBind (callback_port lib config);
              EOpenBrowser (get_authorize_url lib (new_oauth config))] ++
             (if on_waiting hooks then [EOnWaiting] else []).
Proof.
  unfold listening. destruct (on_waiting hooks); simpl;
    rewrite <- ?app_assoc; reflexivity.
Qed.

Lemma listening_frame lib config hooks w :
  handler (listening lib config hooks w) = CallbackHandler.empty /\
  inbound (listening lib config hooks w) = inbound w /\
  accepted (listening lib config hooks w) = accepted w /\
  fs (listening lib config hooks w) = fs w /\
  waited (listening lib config hooks w) = waited w /\
  bound (listening lib config hooks w) = {[callback_port lib config]} ∪ bound w.
Proof. unfold listening. destruct (on_waiting hooks); simpl; auto 10. Qed.

Lemma quiet_until_listening lib config hooks w k :
  quiet_until lib w k -> quiet_until lib (listening lib config hooks w) k.
Proof.
  intros H i Hi. destruct (listening_frame lib config hooks w) as (_ & -> & -> & _).
  now apply H.
Qed.

Ltac filter_trace :=
  unfold calls; rewrite ?List.filter_app; fold (calls is_exchange);
  fold (calls is_error); fold (calls is_refresh); fold (calls is_bind);
  fold (calls is_browser); fold (calls is_success).

(** ** The flow, claim by claim *)

(** C3. With a readable, unexpired record in the cache, [authenticate()]
    returns that record; the only call it makes is the success hook (when
    given): no port is bound, no browser is opened, the bound ports and the
    files are as before. *)
Theorem cached_token_short_circuits
    (lib : Library) (config : Config) (fuel : nat) (hooks : Hooks)
    (w : World) (t : TokenInfo) :
  session_ok config w ->
  cached_record config w = Some t ->
  is_token_expired lib t = false ->
  exists (w' : World) (evs : list Effect),
    authenticate lib config fuel hooks w = Returned (Some t) w' /\
    trace w' = trace w ++ evs /\
    evs = (if on_success hooks then [EOnSuccess] else []) /\
    calls is_bind evs = [] /\
    calls is_browser evs = [] /\
    bound w' = bound w /\
    fs w' = fs w /\
    accepted w' = accepted w.
Proof.
  intros Hs Hc He.
  exists (notified (on_success hooks) EOnSuccess (with_session config w)),
         (if on_success hooks then [EOnSuccess] else []).
  split.
  { unfold authenticate. unfold bind at 1.
    rewrite (get_cached_token_valid lib config w t Hs Hc He).
    unfold bind, call_hook, notified. destruct (on_success hooks); reflexivity. }
  unfold notified. destruct (on_success hooks); simpl;
    rewrite ?app_nil_r; repeat split; reflexivity.
Qed.

Section FirstResult.

Variable lib : Library.
Variable config : Config.

Lemma authenticate_first_result fuel hooks w k path :
  session_ok config w ->
  cached_record config w = None ->
  callback_port lib config ∉ bound w ->
  quiet_until lib w k ->
  inbound w (accepted w + k)%nat = Get path ->
  fst (do_GET lib CallbackHandler.empty path) <> CallbackHandler.empty ->
  (k < fuel)%nat ->
  authenticate lib config fuel hooks w =
    conclude lib config hooks (answered lib config hooks k w) /\
  handler (answered lib config hooks k w) = fst (do_GET lib CallbackHandler.empty path) /\
  accepted (answered lib config hooks k w) = (accepted w + k + 1)%nat /\
  fs (answered lib config hooks k w) = fs w /\
  bound (answered lib config hooks k w) = {[callback_port lib config]} ∪ bound w /\
  exists quiet_resps,
    Forall (fun e => e = ERespond (mkResponse 400 [] EmptyBody)) quiet_resps /\
    trace (answered lib config hooks k w) =
      trace w ++ [EBind (callback_port lib config);
                  EOpenBrowser (get_authorize_url lib (new_oauth config))] ++
      (if on_waiting hooks then [EOnWaiting] else []) ++
      quiet_resps ++ [ERespond (snd (do_GET lib CallbackHandler.empty path))].
Proof.
  intros Hs Hc Hp Hq Hin Hset Hk.
  destruct (listening_frame lib config hooks w) as (Lh & Li & La & Lf & _ & Lb).
  pose proof (quiet_until_listening lib config hooks w k Hq) as Hq'.
  assert (Hin' : inbound (listening lib config hooks w)
                   (accepted (listening lib config hooks w) + k)%nat = Get path)
    by now rewrite Li, La.
  destruct (wait_terminal lib (callback_server lib config) fuel k _ path
              Lh Hq' Hin' Hset Hk) as (Hwait & Hh & Ht).
  destruct (steps_frame lib (callback_server lib config) k
              (listening lib config hooks w)) as (Sf & Sb & _ & _ & Sa).
  destruct (handle_request_frame lib (callback_server lib config)
              (steps lib (callback_server lib config) k
                 (listening lib config hooks w))) as (Rf & Rb & _ & _ & Ra).
  cbv zeta in Rf, Rb, Ra.
  destruct (steps_quiet lib (callback_server lib config) k _ Hq')
    as (_ & resps & Hresps & Hall).
  unfold answered. repeat split.
  - rewrite (authenticate_listens lib config fuel hooks w Hs Hc Hp).
    unfold bind. fold (callback_server lib config). rewrite Hwait. reflexivity.
  - exact Hh.
  - rewrite Ra, Sa, La. lia.
  - now rewrite Rf, Sf, Lf.
  - now rewrite Rb, Sb, Lb.
  - exists resps. split; [exact Hall|].
    rewrite Ht, Hresps, trace_listening.
    rewrite <- !app_assoc. reflexivity.
Qed.

End FirstResult.

(** C4. On an attempt that reaches the listener, let the first request
    carrying a result be one whose [code] is [c] (for instance [ABC123]),
    after [k] accepts that were timeouts or requests with neither
    parameter.  Then that request is answered with status 200, the loop
    ends with it ([k + 1] accepts in all), the port is released, and the
    token exchange is called exactly once, with [c]; [authenticate()]
    returns what the exchange produced. *)
Theorem code_callback_is_exchanged_once
    (lib : Library) (config : Config) (fuel : nat) (hooks : Hooks)
    (w : World) (k : nat) (path c : string) (rest : list string) :
  session_ok config w ->
  cached_record config w = None ->
  callback_port lib config ∉ bound w ->
  quiet_until lib w k ->
  inbound w (accepted w + k)%nat = Get path ->
  parse_query lib path !! "code" = Some (c, rest) ->
  c <> "" ->
  (k < fuel)%nat ->
  exists (w' : World) (quiet_resps evs : list Effect),
    authenticate lib config fuel hooks w =
      Returned (match get_access_token lib c with
                | Ok t => Some t
                | Err _ => None
                end) w' /\
    Forall (fun e => e = ERespond (mkResponse 400 [] EmptyBody)) quiet_resps /\
    evs = [EBind (callback_port lib config);
           EOpenBrowser (get_authorize_url lib (new_oauth config))] ++
          (if on_waiting hooks then [EOnWaiting] else []) ++
          quiet_resps ++
          [ERespond (mkResponse 200 [("Content-type", "text/html")] SuccessPage);
           EClose (callback_port lib config);
           EExchange c] ++
          match get_access_token lib c with
          | Ok _ => if on_success hooks then [EOnSuccess] else []
          | Err msg => if on_error hooks then [EOnError msg] else []
          end /\
    trace w' = trace w ++ evs /\
    calls is_exchange evs = [EExchange c] /\
    accepted w' = (accepted w + k + 1)%nat /\
    handler w' = CallbackHandler.mk (Some c) None /\
    callback_port lib config ∉ bound w'.
Proof.
  intros Hs Hc Hp Hq Hin Hcode Hne Hk.
  assert (Hget : do_GET lib CallbackHandler.empty path =
                 (CallbackHandler.mk (Some c) None,
                  mkResponse 200 [("Content-type", "text/html")] SuccessPage)).
  { unfold do_GET. rewrite Hcode. reflexivity. }
  assert (Hset : fst (do_GET lib CallbackHandler.empty path) <> CallbackHandler.empty)
    by (rewrite Hget; discriminate).
  destruct (authenticate_first_result lib config fuel hooks w k path
              Hs Hc Hp Hq Hin Hset Hk)
    as (Hauth & Hh & Ha & Hf & Hb & resps & Hall & Ht).
  rewrite Hget in Hh, Ht. simpl in Hh, Ht.
  rewrite (conclude_code lib config hooks _ c Hh Hne) in Hauth.
  destruct (get_access_token lib c) as [t|msg].
  - eexists _, resps, _. split; [exact Hauth|]. split; [exact Hall|].
    split; [reflexivity|].
    unfold notified, stored, closed.
    destruct (on_success hooks), (on_waiting hooks); simpl;
      (split; [rewrite Ht, <- ?app_assoc; simpl; rewrite <- ?app_assoc; reflexivity|]);
      (split; [filter_trace; simpl; rewrite (calls_uniform _ _ _ Hall) by reflexivity;
               reflexivity|]);
      (split; [exact Ha|]); (split; [exact Hh|]); rewrite Hb; apply port_released.
  - eexists _, resps, _. split; [exact Hauth|]. split; [exact Hall|].
    split; [reflexivity|].
    unfold notified, stored, closed.
    destruct (on_error hooks), (on_waiting hooks); simpl;
      (split; [rewrite Ht, <- ?app_assoc; simpl; rewrite <- ?app_assoc; reflexivity|]);
      (split; [filter_trace; simpl; rewrite (calls_uniform _ _ _ Hall) by reflexivity;
               reflexivity|]);
      (split; [exact Ha|]); (split; [exact Hh|]); rewrite Hb; apply port_released.
Qed.

(** C5. On an attempt that reaches the listener, let the first request
    carrying a result have an [error] parameter [e] (for instance
    [access_denied]) and no [code], after [k] quiet accepts.  Then that
    request is answered with status 400, the error hook (when given) is
    called exactly once, with [e] itself, no exchange and no refresh call
    is made, the files are untouched so no token is persisted, the port is
    released, and [authenticate()] returns no token. *)
Theorem error_callback_is_reported_once
    (lib : Library) (config : Config) (fuel : nat) (hooks : Hooks)
    (w : World) (k : nat) (path e : string) (erest : list string) :
  session_ok config w ->
  cached_record config w = None ->
  callback_port lib config ∉ bound w ->
  quiet_until lib w k ->
  inbound w (accepted w + k)%nat = Get path ->
  parse_query lib path !! "code" = None ->
  parse_query lib path !! "error" = Some (e, erest) ->
  e <> "" ->
  (k < fuel)%nat ->
  exists (w' : World) (quiet_resps evs : list Effect),
    authenticate lib config fuel hooks w = Returned None w' /\
    Forall (fun x => x = ERespond (mkResponse 400 [] EmptyBody)) quiet_resps /\
    evs = [EBind (callback_port lib config);
           EOpenBrowser (get_authorize_url lib (new_oauth config))] ++
          (if on_waiting hooks then [EOnWaiting] else []) ++
          quiet_resps ++
          [ERespond (mkResponse 400 [("Content-type", "text/html")] (FailurePage e));
           EClose (callback_port lib config)] ++
          (if on_error hooks then [EOnError e] else []) /\
    trace w' = trace w ++ evs /\
    calls is_error evs = (if on_error hooks then [EOnError e] else []) /\
    calls is_exchange evs = [] /\
    calls is_refresh evs = [] /\
    calls is_success evs = [] /\
    fs w' = fs w /\
    cached_record config w' = None /\
    handler w' = CallbackHandler.mk None (Some e) /\
    callback_port lib config ∉ bound w'.
Proof.
  intros Hs Hc Hp Hq Hin Hcode Herr Hne Hk.
  assert (Hget : do_GET lib CallbackHandler.empty path =
                 (CallbackHandler.mk None (Some e),
                  mkResponse 400 [("Content-type", "text/html")] (FailurePage e))).
  { unfold do_GET. rewrite Hcode, Herr. reflexivity. }
  assert (Hset : fst (do_GET lib CallbackHandler.empty path) <> CallbackHandler.empty)
    by (rewrite Hget; discriminate).
  destruct (authenticate_first_result lib config fuel hooks w k path
              Hs Hc Hp Hq Hin Hset Hk)
    as (Hauth & Hh & Ha & Hf & Hb & resps & Hall & Ht).
  rewrite Hget in Hh, Ht. simpl in Hh, Ht.
  rewrite (conclude_error lib config hooks _ e Hh Hne) in Hauth.
  eexists _, resps, _. split; [exact Hauth|]. split; [exact Hall|].
  split; [reflexivity|].
  assert (Hcache : forall v : World, fs v = fs w -> cached_record config v = None).
  { intros v Hv. unfold cached_record in *. now rewrite Hv. }
  unfold notified, closed.
  destruct (on_error hooks), (on_waiting hooks); simpl;
    (split; [rewrite Ht, <- ?app_assoc; simpl; rewrite <- ?app_assoc; reflexivity|]);
    (do 4 (split; [filter_trace; simpl;
                   rewrite (calls_uniform _ _ _ Hall) by reflexivity;
                   reflexivity|]));
    (split; [exact Hf|]); (split; [apply Hcache; exact Hf|]);
    (split; [exact Hh|]); rewrite Hb; apply port_released.
Qed.

(** ** Every way the accept loop can go *)

Section LoopOutcome.

Variable lib : Library.
Variable server : Server.

(** [do_GET] on an empty mailbox: it stays empty exactly on a request with
    neither parameter, and otherwise holds one field. *)
Lemma do_GET_empty path :
  (parse_query lib path !! "code" = None /\
   parse_query lib path !! "error" = None /\
   fst (do_GET lib CallbackHandler.empty path) = CallbackHandler.empty) \/
  ((carries lib "code" path \/ carries lib "error" path) /\
   fst (do_GET lib CallbackHandler.empty path) <> CallbackHandler.empty /\
   exclusive (fst (do_GET lib CallbackHandler.empty path))).
Proof.
  unfold do_GET, carries, exclusive.
  destruct (parse_query lib path !! "code") as [vs|] eqn:Hc.
  - right. simpl. repeat split; eauto; try discriminate.
  - destruct (parse_query lib path !! "error") as [vs|] eqn:He.
    + right. simpl. repeat split; eauto; try discriminate.
    + left. auto.
Qed.

Lemma quiet_until_extend w k :
  quiet lib (inbound w (accepted w)) ->
  quiet_until lib (handle_request lib server w) k ->
  quiet_until lib w (S k).
Proof.
  intros H0 Hk i Hi.
  destruct (handle_request_frame lib server w) as (_ & _ & _ & Hin & Hacc).
  destruct i as [|i].
  - now rewrite Nat.add_0_r.
  - specialize (Hk i). rewrite Hin, Hacc in Hk.
    replace (accepted w + S i)%nat with (S (accepted w) + i)%nat by lia.
    apply Hk. lia.
Qed.

(** From an empty mailbox the loop either uses up its fuel on quiet
    accepts, or stops right after the first request that carries a
    result. *)
Lemma wait_outcome fuel : forall w,
  handler w = CallbackHandler.empty ->
  (quiet_until lib w fuel /\
   wait_for_callback lib fuel server w = Waiting (steps lib server fuel w) /\
   handler (steps lib server fuel w) = CallbackHandler.empty) \/
  (exists k path,
      (k < fuel)%nat /\
      quiet_until lib w k /\
      inbound w (accepted w + k)%nat = Get path /\
      fst (do_GET lib CallbackHandler.empty path) <> CallbackHandler.empty /\
      wait_for_callback lib fuel server w =
        Returned tt (handle_request lib server (steps lib server k w)) /\
      handler (handle_request lib server (steps lib server k w)) =
        fst (do_GET lib CallbackHandler.empty path)).
Proof.
  induction fuel as [|fuel IH]; intros w Hh.
  - left. repeat split.
    + intros i Hi. lia.
    + now apply wait_out_of_fuel.
    + exact Hh.
  - assert (Hfirst : quiet lib (inbound w (accepted w)) \/
                     exists path, inbound w (accepted w) = Get path /\
                       fst (do_GET lib CallbackHandler.empty path)
                       <> CallbackHandler.empty).
    { destruct (inbound w (accepted w)) as [|path] eqn:E.
      - left. exact I.
      - destruct (do_GET_empty path) as [(Hc & He & _)|(_ & Hset & _)].
        + left. split; assumption.
        + right. eauto. }
    destruct Hfirst as [Hq0|(path & Hin & Hset)].
    + destruct (handle_request_quiet lib server w Hq0) as [Hh' _].
      rewrite Hh in Hh'.
      rewrite wait_step by exact Hh. rewrite steps_S.
      destruct (IH _ Hh') as [(Hq & Hw & Hk)|(k & path & Hk & Hq & Hin & Hset & Hw & Hd)].
      * left. repeat split; auto using quiet_until_extend.
      * right. exists (S k), path.
        destruct (handle_request_frame lib server w) as (_ & _ & _ & Hi & Ha).
        rewrite Hi, Ha in Hin. rewrite steps_S.
        repeat split; auto using quiet_until_extend; try lia.
        now replace (accepted w + S k)%nat with (S (accepted w) + k)%nat by lia.
    + right. exists 0%nat, path.
      assert (Hq : quiet_until lib w 0) by (intros i Hi; lia).
      rewrite Nat.add_0_r.
      destruct (wait_terminal lib server (S fuel) 0 w path Hh Hq) as (Hw & Hd & _);
        rewrite ?Nat.add_0_r; auto; try lia.
      repeat split; auto; lia.
Qed.

(** Accepts that all time out cost [server.timeout] seconds each and
    change nothing else. *)
Lemma steps_silent k : forall w,
  (forall i : nat, (i < k)%nat -> inbound w (accepted w + i)%nat = NoRequest) ->
  waited (steps lib server k w) = waited w + timeout server * Z.of_nat k /\
  trace (steps lib server k w) = trace w /\
  handler (steps lib server k w) = handler w.
Proof.
  induction k as [|k IH]; intros w Hs.
  - simpl. repeat split. lia.
  - rewrite steps_S.
    assert (H0 : inbound w (accepted w) = NoRequest).
    { specialize (Hs 0%nat). rewrite Nat.add_0_r in Hs. apply Hs. lia. }
    assert (Hstep : handle_request lib server w = next_accept (timeout server) w).
    { unfold handle_request. now rewrite H0. }
    destruct (IH (handle_request lib server w)) as (Hw & Ht & Hh).
    { intros i Hi. rewrite Hstep. simpl.
      rewrite <- Nat.add_succ_r. apply Hs. lia. }
    rewrite Hw, Ht, Hh, Hstep. simpl. repeat split. lia.
Qed.

Lemma silent_is_quiet w k :
  (forall i : nat, (i < k)%nat -> inbound w (accepted w + i)%nat = NoRequest) ->
  quiet_until lib w k.
Proof. intros H i Hi. rewrite H by exact Hi. exact I. Qed.

End LoopOutcome.

(** C1 (what the code does instead).  When no request ever arrives, every
    [handle_request] gives up after [server.timeout = 120] seconds, both
    fields are still [None], and the [while] loop calls it again: whatever
    the fuel, [authenticate()] is still inside the loop, having waited
    [120 * fuel] seconds; the error hook has not been called, nothing was
    closed, and the port is still bound. *)
Theorem silence_is_waited_out_forever
    (lib : Library) (config : Config) (fuel : nat) (hooks : Hooks) (w : World) :
  session_ok config w ->
  cached_record config w = None ->
  callback_port lib config ∉ bound w ->
  (forall i : nat, inbound w (accepted w + i)%nat = NoRequest) ->
  exists (w' : World) (evs : list Effect),
    authenticate lib config fuel hooks w = Waiting w' /\
    waited w' = waited w + 120 * Z.of_nat fuel /\
    accepted w' = (accepted w + fuel)%nat /\
    handler w' = CallbackHandler.empty /\
    trace w' = trace w ++ evs /\
    evs = [EBind (callback_port lib config);
           EOpenBrowser (get_authorize_url lib (new_oauth config))] ++
          (if on_waiting hooks then [EOnWaiting] else []) /\
    calls is_error evs = [] /\
    callback_port lib config ∈ bound w'.
Proof.
  intros Hs Hc Hp Hsil.
  destruct (listening_frame lib config hooks w) as (Lh & Li & La & _ & Lw & Lb).
  assert (Hsil' : forall i : nat, (i < fuel)%nat ->
             inbound (listening lib config hooks w)
               (accepted (listening lib config hooks w) + i)%nat = NoRequest)
    by (intros i _; rewrite Li, La; apply Hsil).
  destruct (steps_silent lib (callback_server lib config) fuel _ Hsil')
    as (Sw & St & Sh).
  destruct (steps_frame lib (callback_server lib config) fuel
              (listening lib config hooks w)) as (_ & Sb & _ & _ & Sa).
  exists (steps lib (callback_server lib config) fuel (listening lib config hooks w)).
  eexists. split.
  { rewrite (authenticate_listens lib config fuel hooks w Hs Hc Hp).
    unfold bind. fold (callback_server lib config).
    replace fuel with (fuel + 0)%nat at 1 by lia.
    rewrite wait_quiet; [|exact Lh|now apply silent_is_quiet].
    rewrite wait_out_of_fuel by congruence. reflexivity. }
  split; [rewrite Sw, Lw; reflexivity|].
  split; [rewrite Sa, La; reflexivity|].
  split; [congruence|].
  split; [rewrite St; apply trace_listening|].
  split; [reflexivity|].
  split; [destruct (on_waiting hooks); reflexivity|].
  rewrite Sb, Lb. apply elem_of_union_l. now apply elem_of_singleton.
Qed.

(** C2 (what the code does instead).  With an expired record in the cache
    and a token endpoint that rejects the refresh, the exception raised in
    [get_cached_token] leaves [authenticate()] uncaught: no port is bound,
    no browser is opened and the error hook is not called. *)
Theorem refresh_failure_escapes
    (lib : Library) (config : Config) (fuel : nat) (hooks : Hooks)
    (w : World) (t : TokenInfo) (msg : string) :
  session_ok config w ->
  cached_record config w = Some t ->
  is_token_expired lib t = true ->
  refresh_access_token lib (refresh_token t) = Err msg ->
  exists w' : World,
    authenticate lib config fuel hooks w = Raised msg w' /\
    trace w' = trace w ++ [ERefresh (refresh_token t)] /\
    calls is_error (trace w') = calls is_error (trace w) /\
    calls is_bind (trace w') = calls is_bind (trace w) /\
    bound w' = bound w /\
    fs w' = fs w.
Proof.
  intros Hs Hc He Hr.
  exists (log (ERefresh (refresh_token t)) (with_session config w)).
  split.
  { unfold authenticate. unfold bind at 1.
    now rewrite (get_cached_token_refresh_raises lib config w t msg Hs Hc He Hr). }
  simpl. repeat split; filter_trace; simpl; now rewrite app_nil_r.
Qed.

(** ** The remaining paths *)

Section AllPaths.

Variable lib : Library.
Variable config : Config.

Lemma get_cached_token_refreshed w t t' :
  session_ok config w ->
  cached_record config w = Some t ->
  is_token_expired lib t = true ->
  refresh_access_token lib (refresh_token t) = Ok t' ->
  get_cached_token lib config w =
  Returned (Some t')
    (stored config t' (log (ERefresh (refresh_token t)) (with_session config w))).
Proof.
  intros Hs Hc He Hr. unfold get_cached_token, bind.
  rewrite (_get_oauth_ok config w Hs).
  unfold oauth_get_cached_token, read, cached_record in *. simpl.
  destruct (fs w !! token_cache_path config) as [[t0|raw]|]; try discriminate.
  injection Hc as ->. rewrite He.
  unfold oauth_refresh_access_token, bind, emit, update. rewrite Hr. reflexivity.
Qed.

Lemma success_hook_agrees_after hooks r pre evs :
  calls is_success pre = [] ->
  success_hook_agrees hooks r evs ->
  success_hook_agrees hooks r (pre ++ evs).
Proof.
  intros Hpre. unfold success_hook_agrees.
  destruct r as [t|]; rewrite calls_app, Hpre; simpl; [|auto].
  intros [Hc Hl]. split; [exact Hc|].
  intros Hon. destruct (Hl Hon) as (before & ->).
  exists (pre ++ before). now rewrite app_assoc.
Qed.

(** [conclude] always returns; it leaves the mailbox alone and calls the
    success hook exactly when it returns a token. *)
Lemma conclude_returns hooks w :
  exists r w' evs,
    conclude lib config hooks w = Returned r w' /\
    handler w' = handler w /\
    trace w' = trace w ++ evs /\
    success_hook_agrees hooks r evs.
Proof.
  unfold conclude, bind, server_close, emit, update, read. simpl.
  destruct (truthy (CallbackHandler.error (handler w))).
  - unfold call_hook. destruct (on_error hooks); simpl;
      eexists _, _, _; (split; [reflexivity|]); simpl;
      (split; [reflexivity|]); rewrite <- ?app_assoc;
      (split; [reflexivity|]); reflexivity.
  - destruct (truthy (CallbackHandler.auth_code (handler w))).
    + unfold try_except, oauth_get_access_token, bind, emit, update, save_token.
      destruct (get_access_token lib _) as [t|msg]; simpl; unfold call_hook.
      * destruct (on_success hooks) eqn:Hon; simpl;
          eexists _, _, _; (split; [reflexivity|]); simpl;
          (split; [reflexivity|]); rewrite <- ?app_assoc;
          (split; [reflexivity|]); simpl; rewrite ?Hon.
        -- split; [reflexivity|]. intros _.
           eexists [_; _]. reflexivity.
        -- split; [reflexivity|]. discriminate.
      * destruct (on_error hooks); simpl;
          eexists _, _, _; (split; [reflexivity|]); simpl;
          (split; [reflexivity|]); rewrite <- ?app_assoc;
          (split; [reflexivity|]); reflexivity.
    + eexists _, _, _. split; [reflexivity|]. simpl.
      split; [reflexivity|]. split; [reflexivity|]. reflexivity.
Qed.

(** On a cache miss with the port free, a run that has left the loop was
    ended by the first request carrying a result, and goes on with
    [conclude] from there. *)
Lemma authenticate_miss_cases fuel hooks w :
  session_ok config w ->
  cached_record config w = None ->
  callback_port lib config ∉ bound w ->
  (quiet_until lib w fuel /\
   authenticate lib config fuel hooks w =
     Waiting (steps lib (callback_server lib config) fuel
                (listening lib config hooks w)) /\
   handler (steps lib (callback_server lib config) fuel
              (listening lib config hooks w)) = CallbackHandler.empty) \/
  (exists k path,
      (k < fuel)%nat /\
      quiet_until lib w k /\
      inbound w (accepted w + k)%nat = Get path /\
      fst (do_GET lib CallbackHandler.empty path) <> CallbackHandler.empty /\
      authenticate lib config fuel hooks w =
        conclude lib config hooks (answered lib config hooks k w) /\
      handler (answered lib config hooks k w) =
        fst (do_GET lib CallbackHandler.empty path)).
Proof.
  intros Hs Hc Hp.
  destruct (listening_frame lib config hooks w) as (Lh & Li & La & _).
  assert (Hback : forall k, quiet_until lib (listening lib config hooks w) k ->
                            quiet_until lib w k).
  { intros k H i Hi. specialize (H i Hi). now rewrite Li, La in H. }
  rewrite (authenticate_listens lib config fuel hooks w Hs Hc Hp).
  unfold bind. fold (callback_server lib config).
  destruct (wait_outcome lib (callback_server lib config) fuel _ Lh)
    as [(Hq & Hw & Hh)|(k & path & Hk & Hq & Hin & Hset & Hw & Hh)].
  - left. rewrite Hw. auto.
  - right. exists k, path. rewrite Hw, Li, La in *.
    unfold answered. auto 10.
Qed.

End AllPaths.

(** With hooks that return: whenever [authenticate()] returns a token, the
    success hook, if given, has been called exactly once during the call,
    as its last action before returning, on the cache path as well as
    after an exchange; whenever it returns [None] the success hook has not
    been called. *)
Lemma returning_hooks_track_the_result
    (lib : Library) (config : Config) (fuel : nat) (hooks : Hooks)
    (w w' : World) (r : option TokenInfo) :
  session_ok config w ->
  authenticate lib config fuel hooks w = Returned r w' ->
  exists evs : list Effect,
    trace w' = trace w ++ evs /\
    success_hook_agrees hooks r evs.
Proof.
  intros Hs Hret.
  assert (Hcache : forall t v,
             get_cached_token lib config w = Returned (Some t) v ->
             authenticate lib config fuel hooks w =
             Returned (Some t) (notified (on_success hooks) EOnSuccess v)).
  { intros t v Hg. unfold authenticate. unfold bind at 1. rewrite Hg.
    unfold bind, call_hook, notified. destruct (on_success hooks); reflexivity. }
  destruct (cached_record config w) as [t|] eqn:Hc.
  - destruct (is_token_expired lib t) eqn:He.
    + destruct (refresh_access_token lib (refresh_token t)) as [t'|msg] eqn:Hr.
      * rewrite (Hcache _ _ (get_cached_token_refreshed lib config w t t' Hs Hc He Hr))
          in Hret.
        injection Hret as <- <-.
        exists ([ERefresh (refresh_token t)] ++
                (if on_success hooks then [EOnSuccess] else [])).
        unfold notified, success_hook_agrees.
        destruct (on_success hooks); simpl; rewrite <- ?app_assoc; simpl;
          rewrite ?app_nil_r; repeat split; try discriminate.
        intros _. now exists [ERefresh (refresh_token t)].
      * unfold authenticate in Hret. unfold bind at 1 in Hret.
        rewrite (get_cached_token_refresh_raises lib config w t msg Hs Hc He Hr)
          in Hret.
        discriminate.
    + rewrite (Hcache _ _ (get_cached_token_valid lib config w t Hs Hc He)) in Hret.
      injection Hret as <- <-.
      exists (if on_success hooks then [EOnSuccess] else []).
      unfold notified, success_hook_agrees.
      destruct (on_success hooks); simpl; rewrite ?app_nil_r;
        repeat split; try discriminate.
      intros _. now exists [].
  - destruct (decide (callback_port lib config ∈ bound w)) as [Hin|Hout].
    + rewrite (authenticate_bind_fails lib config fuel hooks w Hs Hc Hin) in Hret.
      discriminate.
    + destruct (authenticate_miss_cases lib config fuel hooks w Hs Hc Hout)
        as [(_ & Hw & _)|(k & path & Hk & Hq & Hget & Hset & Hauth & _)].
      * rewrite Hw in Hret. discriminate.
      * destruct (authenticate_first_result lib config fuel hooks w k path
                    Hs Hc Hout Hq Hget Hset Hk)
          as (_ & _ & _ & _ & _ & resps & Hall & Ht).
        destruct (conclude_returns lib config hooks
                    (answered lib config hooks k w))
          as (r0 & w0 & evs & Hconc & _ & Ht0 & Hagree).
        rewrite Hauth, Hconc in Hret. injection Hret as <- <-.
        eexists. split.
        { rewrite Ht0, Ht, <- app_assoc. reflexivity. }
        apply success_hook_agrees_after; [|exact Hagree].
        filter_trace.
        rewrite (calls_uniform _ _ _ Hall) by reflexivity.
        destruct (on_waiting hooks); reflexivity.
Qed.

(** ** Hooks that may raise *)

Section FallibleHooks.

Variable lib : Library.
Variable config : Config.

(** With hooks that return, [Fallible.authenticate] is [authenticate]. *)
Lemma authenticate_of_returning_hooks fuel hooks :
  raises (Fallible.on_waiting hooks) = false ->
  raises (Fallible.on_success hooks) = false ->
  raises (Fallible.on_error hooks) = false ->
  Fallible.authenticate lib config fuel hooks =
  authenticate lib config fuel (hooks_of hooks).
Proof.
  destruct hooks as [[[|e1]|] [[|e2]|] [[|e3]|]]; simpl; intros H1 H2 H3;
    try discriminate; reflexivity.
Qed.





End FallibleHooks.


(** ** The mailbox *)

Section Mailbox.

Variable lib : Library.
Variable config : Config.

Lemma result_is_not_quiet path :
  fst (do_GET lib CallbackHandler.empty path) <> CallbackHandler.empty ->
  ~ quiet lib (Get path).
Proof.
  intros Hset [Hc He]. apply Hset. unfold do_GET. now rewrite Hc, He.
Qed.

(** The first request carrying a result is determined by the traffic. *)
Lemma first_result_unique w k1 k2 p1 p2 :
  quiet_until lib w k1 -> inbound w (accepted w + k1)%nat = Get p1 ->
  fst (do_GET lib CallbackHandler.empty p1) <> CallbackHandler.empty ->
  quiet_until lib w k2 -> inbound w (accepted w + k2)%nat = Get p2 ->
  fst (do_GET lib CallbackHandler.empty p2) <> CallbackHandler.empty ->
  k1 = k2 /\ p1 = p2.
Proof.
  intros Hq1 Hi1 Hs1 Hq2 Hi2 Hs2.
  assert (k1 = k2) as ->.
  { destruct (Nat.lt_trichotomy k1 k2) as [Hlt|[Heq|Hgt]]; [|exact Heq|].
    - specialize (Hq2 k1 Hlt). rewrite Hi1 in Hq2.
      now destruct (result_is_not_quiet p1 Hs1).
    - specialize (Hq1 k2 Hgt). rewrite Hi2 in Hq1.
      now destruct (result_is_not_quiet p2 Hs2). }
  split; [reflexivity|]. congruence.
Qed.

Lemma conclude_keeps_mailbox hooks w :
  handler (world_of (conclude lib config hooks w)) = handler w.
Proof.
  destruct (conclude_returns lib config hooks w) as (r & w' & evs & -> & Hh & _).
  exact Hh.
Qed.

(** The mailbox along an attempt that reaches the listener. *)
Lemma mailbox_cases hooks w fuel :
  session_ok config w ->
  cached_record config w = None ->
  callback_port lib config ∉ bound w ->
  (quiet_until lib w fuel /\ mailbox lib config hooks w fuel = CallbackHandler.empty) \/
  (exists k path,
      (k < fuel)%nat /\
      quiet_until lib w k /\
      inbound w (accepted w + k)%nat = Get path /\
      fst (do_GET lib CallbackHandler.empty path) <> CallbackHandler.empty /\
      mailbox lib config hooks w fuel = fst (do_GET lib CallbackHandler.empty path)).
Proof.
  intros Hs Hc Hp. unfold mailbox.
  destruct (authenticate_miss_cases lib config fuel hooks w Hs Hc Hp)
    as [(Hq & -> & Hh)|(k & path & Hk & Hq & Hin & Hset & -> & Hh)].
  - left. auto.
  - right. exists k, path. rewrite conclude_keeps_mailbox. auto 10.
Qed.

(** Off the listener the mailbox is not touched. *)
Lemma mailbox_on_cache_paths hooks w fuel t :
  session_ok config w ->
  cached_record config w = Some t ->
  mailbox lib config hooks w fuel = handler w.
Proof.
  intros Hs Hc. unfold mailbox.
  assert (Hcache : forall t0 v,
             get_cached_token lib config w = Returned (Some t0) v ->
             authenticate lib config fuel hooks w =
             Returned (Some t0) (notified (on_success hooks) EOnSuccess v)).
  { intros t0 v Hg. unfold authenticate. unfold bind at 1. rewrite Hg.
    unfold bind, call_hook, notified. destruct (on_success hooks); reflexivity. }
  destruct (is_token_expired lib t) eqn:He.
  - destruct (refresh_access_token lib (refresh_token t)) as [t'|msg] eqn:Hr.
    + rewrite (Hcache _ _ (get_cached_token_refreshed lib config w t t' Hs Hc He Hr)).
      unfold notified. destruct (on_success hooks); reflexivity.
    + unfold authenticate. unfold bind at 1.
      rewrite (get_cached_token_refresh_raises lib config w t msg Hs Hc He Hr).
      reflexivity.
  - rewrite (Hcache _ _ (get_cached_token_valid lib config w t Hs Hc He)).
    unfold notified. destruct (on_success hooks); reflexivity.
Qed.

(** [session_ok] is an invariant of the object: it holds when the process
    starts, and [authenticate] and [logout] keep it. *)
Lemma conclude_keeps_session hooks w :
  _oauth (world_of (conclude lib config hooks w)) = _oauth w.
Proof.
  unfold conclude, bind, server_close, emit, update, read. simpl.
  destruct (truthy (CallbackHandler.error (handler w))).
  - unfold call_hook. destruct (on_error hooks); reflexivity.
  - destruct (truthy (CallbackHandler.auth_code (handler w))); [|reflexivity].
    unfold try_except, oauth_get_access_token, bind, emit, update, save_token.
    destruct (get_access_token lib _) as [t|msg]; simpl; unfold call_hook.
    + destruct (on_success hooks); reflexivity.
    + destruct (on_error hooks); reflexivity.
Qed.

Lemma authenticate_keeps_session fuel hooks w :
  session_ok config w ->
  session_ok config (world_of (authenticate lib config fuel hooks w)).
Proof.
  intros Hs. right.
  assert (Hcache : forall t0 v,
             get_cached_token lib config w = Returned (Some t0) v ->
             authenticate lib config fuel hooks w =
             Returned (Some t0) (notified (on_success hooks) EOnSuccess v)).
  { intros t0 v Hg. unfold authenticate. unfold bind at 1. rewrite Hg.
    unfold bind, call_hook, notified. destruct (on_success hooks); reflexivity. }
  assert (Hl : _oauth (listening lib config hooks w) = Some (new_oauth config))
    by (unfold listening; destruct (on_waiting hooks); reflexivity).
  destruct (cached_record config w) as [t|] eqn:Hc.
  - destruct (is_token_expired lib t) eqn:He.
    + destruct (refresh_access_token lib (refresh_token t)) as [t'|msg] eqn:Hr.
      * rewrite (Hcache _ _ (get_cached_token_refreshed lib config w t t' Hs Hc He Hr)).
        unfold notified. destruct (on_success hooks); reflexivity.
      * unfold authenticate. unfold bind at 1.
        rewrite (get_cached_token_refresh_raises lib config w t msg Hs Hc He Hr).
        reflexivity.
    + rewrite (Hcache _ _ (get_cached_token_valid lib config w t Hs Hc He)).
      unfold notified. destruct (on_success hooks); reflexivity.
  - destruct (decide (callback_port lib config ∈ bound w)) as [Hin|Hout].
    + now rewrite (authenticate_bind_fails lib config fuel hooks w Hs Hc Hin).
    + destruct (authenticate_miss_cases lib config fuel hooks w Hs Hc Hout)
        as [(_ & -> & _)|(k & path & _ & _ & _ & _ & -> & _)].
      * simpl.
        destruct (steps_frame lib (callback_server lib config) fuel
                    (listening lib config hooks w)) as (_ & _ & -> & _).
        exact Hl.
      * rewrite conclude_keeps_session. unfold answered.
        destruct (handle_request_frame lib (callback_server lib config)
                    (steps lib (callback_server lib config) k
                       (listening lib config hooks w))) as (_ & _ & -> & _).
        destruct (steps_frame lib (callback_server lib config) k
                    (listening lib config hooks w)) as (_ & _ & -> & _).
        exact Hl.
Qed.

Lemma logout_keeps_session w :
  session_ok config (world_of (logout config w)).
Proof.
  left. unfold logout, bind, os_path_exists, os_remove, read.
  destruct (fs w !! token_cache_path config) as [f|] eqn:E.
  - rewrite bool_decide_eq_true_2 by eauto. rewrite E. reflexivity.
  - rewrite bool_decide_eq_false_2 by (intros [x Hx]; discriminate). reflexivity.
Qed.

End Mailbox.

(** C8. The result mailbox.  Whenever it holds at most one field on entry,
    it holds at most one field at every point of [authenticate()], on every
    path.  On an attempt that goes to the listener both fields are reset
    before the port is bound (they are empty even when the bind fails, and
    empty when the loop is entered); from then on the mailbox changes at
    most once, and a non-empty mailbox is what [do_GET] made of the first
    request carrying [code] or [error], every earlier accept having been a
    timeout or a request with neither. *)
Theorem mailbox_is_set_once_and_exclusive
    (lib : Library) (config : Config) (hooks : Hooks) (w : World) :
  session_ok config w ->
  exclusive (handler w) ->
  (forall fuel, exclusive (mailbox lib config hooks w fuel)) /\
  (cached_record config w = None ->
   (callback_port lib config ∈ bound w ->
    forall fuel, mailbox lib config hooks w fuel = CallbackHandler.empty) /\
   (callback_port lib config ∉ bound w ->
    authenticate lib config 0 hooks w = Waiting (listening lib config hooks w) /\
    mailbox lib config hooks w 0 = CallbackHandler.empty /\
    (forall n m, (n <= m)%nat ->
       mailbox lib config hooks w n <> CallbackHandler.empty ->
       mailbox lib config hooks w m = mailbox lib config hooks w n) /\
    (forall n, mailbox lib config hooks w n <> CallbackHandler.empty ->
       exists k path,
         (k < n)%nat /\
         quiet_until lib w k /\
         inbound w (accepted w + k)%nat = Get path /\
         (carries lib "code" path \/ carries lib "error" path) /\
         mailbox lib config hooks w n =
           fst (do_GET lib CallbackHandler.empty path)))).
Proof.
  intros Hs Hex. split.
  - intros fuel.
    destruct (cached_record config w) as [t|] eqn:Hc.
    + now rewrite (mailbox_on_cache_paths lib config hooks w fuel t Hs Hc).
    + destruct (decide (callback_port lib config ∈ bound w)) as [Hin|Hout].
      * unfold mailbox.
        rewrite (authenticate_bind_fails lib config fuel hooks w Hs Hc Hin).
        left. reflexivity.
      * destruct (mailbox_cases lib config hooks w fuel Hs Hc Hout)
          as [(_ & ->)|(k & path & _ & _ & _ & Hset & ->)].
        -- left. reflexivity.
        -- destruct (do_GET_empty lib path) as [(_ & _ & He)|(_ & _ & He)].
           ++ now rewrite He.
           ++ exact He.
  - intros Hc. split.
    + intros Hin fuel. unfold mailbox.
      now rewrite (authenticate_bind_fails lib config fuel hooks w Hs Hc Hin).
    + intros Hout.
      destruct (listening_frame lib config hooks w) as (Lh & _).
      assert (H0 : authenticate lib config 0 hooks w =
                   Waiting (listening lib config hooks w)).
      { rewrite (authenticate_listens lib config 0 hooks w Hs Hc Hout).
        unfold bind. now rewrite wait_out_of_fuel. }
      split; [exact H0|]. split; [unfold mailbox; now rewrite H0|]. split.
      * intros n m Hnm Hne.
        destruct (mailbox_cases lib config hooks w n Hs Hc Hout)
          as [(_ & He)|(k & path & Hk & Hq & Hin & Hset & Hn)]; [contradiction|].
        destruct (mailbox_cases lib config hooks w m Hs Hc Hout)
          as [(Hqm & _)|(k' & path' & Hk' & Hq' & Hin' & Hset' & Hm)].
        -- assert (Hkm : (k < m)%nat) by lia.
           specialize (Hqm k Hkm). rewrite Hin in Hqm.
           now destruct (result_is_not_quiet lib path Hset).
        -- destruct (first_result_unique lib w k k' path path'
                       Hq Hin Hset Hq' Hin' Hset') as [_ ->].
           congruence.
      * intros n Hne.
        destruct (mailbox_cases lib config hooks w n Hs Hc Hout)
          as [(_ & He)|(k & path & Hk & Hq & Hin & Hset & Hn)]; [contradiction|].
        exists k, path. repeat split; auto.
        destruct (do_GET_empty lib path) as [(_ & _ & He)|(Hcar & _ & _)];
          [contradiction|exact Hcar].
Qed.

(** ** Concrete runs *)

Lemma demo_port_free files traffic :
  callback_port demo_lib demo_config ∉ bound (boot files traffic).
Proof. apply not_elem_of_empty. Qed.

Lemma demo_quiet_prefix files (p : string) :
  quiet_until demo_lib (boot files (then_silence [NoRequest; Get "/favicon.ico"; Get p])) 2.
Proof.
  intros [|[|i]] Hi.
  - exact I.
  - split; reflexivity.
  - lia.
Qed.

Lemma silence_is_waited_out_forever_witness :
  exists w' : World,
    authenticate demo_lib demo_config 1000 all_hooks (boot ∅ silence) = Waiting w' /\
    waited w' = 120000 /\
    calls is_error (trace w') = [] /\
    8888 ∈ bound w'.
Proof.
  destruct (silence_is_waited_out_forever demo_lib demo_config 1000 all_hooks
              (boot ∅ silence))
    as (w' & evs & Hret & Hw & _ & _ & Ht & Hevs & Herr & Hb).
  - left. reflexivity.
  - reflexivity.
  - apply demo_port_free.
  - intros i. reflexivity.
  - exists w'. split; [exact Hret|]. split; [exact Hw|].
    split; [rewrite Ht; exact Herr|exact Hb].
Defined.

Lemma refresh_failure_escapes_witness :
  exists w' : World,
    authenticate demo_lib demo_config 5 all_hooks
      (boot (cache_with expired_token) silence) = Raised "invalid_grant" w' /\
    trace w' = [ERefresh "AQC-refresh"].
Proof.
  destruct (refresh_failure_escapes demo_lib demo_config 5 all_hooks
              (boot (cache_with expired_token) silence) expired_token "invalid_grant")
    as (w' & Hret & Ht & _).
  - left. reflexivity.
  - vm_compute. reflexivity.
  - reflexivity.
  - reflexivity.
  - exists w'. split; [exact Hret|exact Ht].
Defined.

Lemma cached_token_short_circuits_witness :
  exists w' : World,
    authenticate demo_lib demo_config 5 all_hooks
      (boot (cache_with demo_token) silence) = Returned (Some demo_token) w' /\
    trace w' = [EOnSuccess] /\
    bound w' = ∅.
Proof.
  destruct (cached_token_short_circuits demo_lib demo_config 5 all_hooks
              (boot (cache_with demo_token) silence) demo_token)
    as (w' & evs & Hret & Ht & Hevs & _ & _ & Hb & _).
  - left. reflexivity.
  - vm_compute. reflexivity.
  - reflexivity.
  - exists w'. split; [exact Hret|]. split; [rewrite Ht, Hevs; reflexivity|exact Hb].
Defined.

Lemma code_callback_is_exchanged_once_witness :
  exists w' : World,
    authenticate demo_lib demo_config 3 all_hooks (boot ∅ code_traffic) =
      Returned (Some fresh_token) w' /\
    calls is_exchange (trace w') = [EExchange "ABC123"] /\
    accepted w' = 3%nat /\
    8888 ∉ bound w'.
Proof.
  destruct (code_callback_is_exchanged_once demo_lib demo_config 3 all_hooks
              (boot ∅ code_traffic) 2 "/callback?code=ABC123" "ABC123" [])
    as (w' & resps & evs & Hret & _ & _ & Ht & Hex & Ha & _ & Hb).
  - left. reflexivity.
  - reflexivity.
  - apply demo_port_free.
  - apply demo_quiet_prefix.
  - reflexivity.
  - vm_compute. reflexivity.
  - discriminate.
  - lia.
  - exists w'. split; [exact Hret|]. split; [rewrite Ht; exact Hex|].
    split; [exact Ha|exact Hb].
Defined.

Lemma error_callback_is_reported_once_witness :
  exists w' : World,
    authenticate demo_lib demo_config 3 all_hooks (boot ∅ denied_traffic) =
      Returned None w' /\
    calls is_error (trace w') = [EOnError "access_denied"] /\
    calls is_exchange (trace w') = [] /\
    fs w' = ∅.
Proof.
  destruct (error_callback_is_reported_once demo_lib demo_config 3 all_hooks
              (boot ∅ denied_traffic) 2 "/callback?error=access_denied"
              "access_denied" [])
    as (w' & resps & evs & Hret & _ & _ & Ht & Herr & Hex & _ & _ & Hf & _).
  - left. reflexivity.
  - reflexivity.
  - apply demo_port_free.
  - apply demo_quiet_prefix.
  - reflexivity.
  - vm_compute. reflexivity.
  - vm_compute. reflexivity.
  - discriminate.
  - lia.
  - exists w'. split; [exact Hret|]. split; [rewrite Ht; exact Herr|].
    split; [rewrite Ht; exact Hex|exact Hf].
Defined.

Lemma other_requests_do_not_end_the_wait_witness :
  let server := callback_server demo_lib demo_config in
  let w := boot ∅ (then_silence [Get "/favicon.ico"]) in
  do_GET demo_lib CallbackHandler.empty "/favicon.ico" =
    (CallbackHandler.empty, mkResponse 400 [] EmptyBody) /\
  wait_for_callback demo_lib 1 server w = Waiting (handle_request demo_lib server w) /\
  trace (handle_request demo_lib server w) = [ERespond (mkResponse 400 [] EmptyBody)].
Proof.
  intros server w.
  destruct (other_requests_do_not_end_the_wait demo_lib server w "/favicon.ico")
    as (Hget & _ & Ht & Hw & _).
  - reflexivity.
  - reflexivity.
  - reflexivity.
  - reflexivity.
  - split; [apply Hget|]. split; [exact Hw|exact Ht].
Defined.

Lemma code_takes_precedence_witness :
  do_GET demo_lib CallbackHandler.empty "/callback?error=access_denied&code=ABC123" =
    (CallbackHandler.mk (Some "ABC123") None,
     mkResponse 200 [("Content-type", "text/html")] SuccessPage).
Proof.
  destruct (code_takes_precedence demo_lib CallbackHandler.empty
              "/callback?error=access_denied&code=ABC123"
              "ABC123" "access_denied" [] [])
    as (Hget & _).
  - vm_compute. reflexivity.
  - vm_compute. reflexivity.
  - exact Hget.
Defined.



Lemma mailbox_is_set_once_and_exclusive_witness :
  exclusive (mailbox demo_lib demo_config all_hooks (boot ∅ code_traffic) 3) /\
  mailbox demo_lib demo_config all_hooks (boot ∅ code_traffic) 0 =
    CallbackHandler.empty /\
  mailbox demo_lib demo_config all_hooks (boot ∅ code_traffic) 7 =
    mailbox demo_lib demo_config all_hooks (boot ∅ code_traffic) 3.
Proof.
  destruct (mailbox_is_set_once_and_exclusive demo_lib demo_config all_hooks
              (boot ∅ code_traffic))
    as (Hex & Hmiss).
  - left. reflexivity.
  - left. reflexivity.
  - destruct Hmiss as (_ & Hfree); [reflexivity|].
    destruct Hfree as (_ & H0 & Honce & _); [apply demo_port_free|].
    split; [apply Hex|]. split; [exact H0|].
    apply Honce; [lia|]. vm_compute. discriminate.
Defined.

(** * Beyond the listed claims: the rest of [SpotifyAuth] *)

Section AuthExtras.

Variable lib : Library.
Variable config : Config.

(** What [conclude] calls and what it does to the port. *)
Lemma conclude_effects hooks w :
  exists evs,
    trace (world_of (conclude lib config hooks w)) =
      trace w ++ EClose (callback_port lib config) :: evs /\
    Forall (fun e => is_bind e = false /\ is_browser e = false /\
                     is_waiting e = false /\ is_close e = false) evs /\
    bound (world_of (conclude lib config hooks w)) =
      bound w ∖ {[callback_port lib config]}.
Proof.
  unfold conclude, bind, server_close, emit, update, read. simpl.
  destruct (truthy (CallbackHandler.error (handler w))).
  - unfold call_hook. destruct (on_error hooks); simpl; eexists;
      rewrite <- ?app_assoc; (split; [reflexivity|]); split;
      try reflexivity; repeat constructor.
  - destruct (truthy (CallbackHandler.auth_code (handler w))).
    + unfold try_except, oauth_get_access_token, bind, emit, update, save_token.
      destruct (get_access_token lib _) as [t|msg]; simpl; unfold call_hook.
      * destruct (on_success hooks); simpl; eexists;
          rewrite <- ?app_assoc; (split; [reflexivity|]); split;
          try reflexivity; repeat constructor.
      * destruct (on_error hooks); simpl; eexists;
          rewrite <- ?app_assoc; (split; [reflexivity|]); split;
          try reflexivity; repeat constructor.
    + simpl. eexists. split; [reflexivity|]. split;
        try reflexivity; repeat constructor.
Qed.

Lemma restored (p : Z) (b : gset Z) : p ∉ b -> ({[p]} ∪ b) ∖ {[p]} = b.
Proof.
  intros Hp. apply set_eq. intros x.
  rewrite elem_of_difference, elem_of_union, !elem_of_singleton.
  split.
  - intros [[->|Hx] Hne]; [now destruct Hne|exact Hx].
  - intros Hx. split; [now right|]. intros ->. contradiction.
Qed.

End AuthExtras.

(** X1. A successful refresh is stored and then reused: with an expired
    record in the cache and a token endpoint that answers the refresh,
    [get_cached_token()] makes exactly one refresh call with the stored
    refresh token, returns the new record and writes it to the cache file;
    if the new record is not expired, calling again returns it without any
    further call and without changing anything. *)
Theorem refresh_is_stored_and_reused
    (lib : Library) (config : Config) (w : World) (t t' : TokenInfo) :
  session_ok config w ->
  cached_record config w = Some t ->
  is_token_expired lib t = true ->
  refresh_access_token lib (refresh_token t) = Ok t' ->
  is_token_expired lib t' = false ->
  exists w1 : World,
    get_cached_token lib config w = Returned (Some t') w1 /\
    trace w1 = trace w ++ [ERefresh (refresh_token t)] /\
    cached_record config w1 = Some t' /\
    bound w1 = bound w /\
    get_cached_token lib config w1 = Returned (Some t') w1.
Proof.
  intros Hs Hc He Hr He'.
  exists (stored config t' (log (ERefresh (refresh_token t)) (with_session config w))).
  assert (Hc1 : cached_record config
                  (stored config t'
                     (log (ERefresh (refresh_token t)) (with_session config w)))
                = Some t').
  { unfold cached_record, stored. simpl. now rewrite lookup_insert_eq. }
  split; [now apply get_cached_token_refreshed|].
  split; [reflexivity|]. split; [exact Hc1|]. split; [reflexivity|].
  rewrite (get_cached_token_valid lib config _ t'); [reflexivity| |exact Hc1|exact He'].
  right. reflexivity.
Qed.

(** X2. [get_spotify_client()] only ever looks at the cache: on a miss it
    returns [None] having called nothing; with a valid record it returns a
    client carrying that record's access token; with an expired record it
    carries the refreshed token, or lets the refresh exception through.  It
    never binds a port. *)
Theorem get_spotify_client_uses_the_cache_only
    (lib : Library) (config : Config) (w : World) :
  session_ok config w ->
  bound (world_of (get_spotify_client lib config w)) = bound w /\
  calls is_browser (trace (world_of (get_spotify_client lib config w))) =
    calls is_browser (trace w) /\
  match cached_record config w with
  | None =>
      get_spotify_client lib config w = Returned None (with_session config w)
  | Some t =>
      if is_token_expired lib t
      then match refresh_access_token lib (refresh_token t) with
           | Ok t' =>
               get_spotify_client lib config w =
               Returned (Some (mkSpotify (access_token t')))
                 (stored config t'
                    (log (ERefresh (refresh_token t)) (with_session config w)))
           | Err msg =>
               get_spotify_client lib config w =
               Raised msg (log (ERefresh (refresh_token t)) (with_session config w))
           end
      else get_spotify_client lib config w =
           Returned (Some (mkSpotify (access_token t))) (with_session config w)
  end.
Proof.
  intros Hs. unfold get_spotify_client, bind.
  destruct (cached_record config w) as [t|] eqn:Hc.
  - destruct (is_token_expired lib t) eqn:He.
    + destruct (refresh_access_token lib (refresh_token t)) as [t'|msg] eqn:Hr.
      * rewrite (get_cached_token_refreshed lib config w t t' Hs Hc He Hr).
        simpl. repeat split. filter_trace. simpl. now rewrite app_nil_r.
      * rewrite (get_cached_token_refresh_raises lib config w t msg Hs Hc He Hr).
        simpl. repeat split. filter_trace. simpl. now rewrite app_nil_r.
    + rewrite (get_cached_token_valid lib config w t Hs Hc He). simpl. auto.
  - rewrite (get_cached_token_miss lib config w Hs Hc). simpl. auto.
Qed.

(** X3. After [logout()] a cached token is not used any more: whatever was
    cached before, [get_spotify_client()] returns [None], and
    [authenticate()] goes to the browser: with the port free it binds it,
    opens the authorization URL and waits. *)
Theorem logout_forgets_the_token
    (lib : Library) (config : Config) (hooks : Hooks) (w : World) :
  callback_port lib config ∉ bound w ->
  exists w1 : World,
    logout config w = Returned tt w1 /\
    get_spotify_client lib config w1 = Returned None (with_session config w1) /\
    authenticate lib config 0 hooks w1 = Waiting (listening lib config hooks w1) /\
    callback_port lib config ∈ bound (listening lib config hooks w1) /\
    calls is_browser (trace (listening lib config hooks w1)) =
      calls is_browser (trace w) ++
      [EOpenBrowser (get_authorize_url lib (new_oauth config))].
Proof.
  intros Hp.
  assert (Hlog : exists w1, logout config w = Returned tt w1 /\
                            fs w1 !! token_cache_path config = None /\
                            _oauth w1 = None /\ bound w1 = bound w /\
                            trace w1 = trace w).
  { unfold logout, bind, os_path_exists, os_remove, read.
    destruct (fs w !! token_cache_path config) as [f|] eqn:E.
    - rewrite bool_decide_eq_true_2 by eauto. rewrite E.
      eexists. split; [reflexivity|]. simpl. rewrite lookup_delete_eq. auto.
    - rewrite bool_decide_eq_false_2 by (intros [x Hx]; discriminate).
      eexists. split; [reflexivity|]. simpl. auto. }
  destruct Hlog as (w1 & Hlog & Hf & Ho & Hb & Ht).
  assert (Hs : session_ok config w1) by now left.
  assert (Hc : cached_record config w1 = None)
    by (unfold cached_record; now rewrite Hf).
  assert (Hp1 : callback_port lib config ∉ bound w1) by now rewrite Hb.
  destruct (listening_frame lib config hooks w1) as (Lh & _ & _ & _ & _ & Lb).
  exists w1. split; [exact Hlog|]. split.
  { unfold get_spotify_client, bind.
    now rewrite (get_cached_token_miss lib config w1 Hs Hc). }
  split.
  { rewrite (authenticate_listens lib config 0 hooks w1 Hs Hc Hp1).
    unfold bind. now rewrite wait_out_of_fuel. }
  split.
  { rewrite Lb. apply elem_of_union_l. now apply elem_of_singleton. }
  rewrite trace_listening, Ht. filter_trace. simpl.
  destruct (on_waiting hooks); simpl; now rewrite ?app_nil_r.
Qed.

Lemma calls_none p (evs : list Effect) :
  Forall (fun e => p e = false) evs -> calls p evs = [].
Proof.
  intros H. induction H as [|x l Hx _ IH]; simpl; [reflexivity|].
  now rewrite Hx.
Qed.

(** X4. A token obtained through the browser is stored and then reused:
    when the code exchange succeeds, the record is in the cache file
    afterwards, and as long as it is not expired every later
    [authenticate()] returns it from there, calling nothing but the success
    hook: no second bind, browser or exchange. *)
Theorem exchanged_token_is_cached
    (lib : Library) (config : Config) (fuel : nat) (hooks : Hooks)
    (w : World) (k : nat) (path c : string) (rest : list string) (t : TokenInfo) :
  session_ok config w ->
  cached_record config w = None ->
  callback_port lib config ∉ bound w ->
  quiet_until lib w k ->
  inbound w (accepted w + k)%nat = Get path ->
  parse_query lib path !! "code" = Some (c, rest) ->
  c <> "" ->
  (k < fuel)%nat ->
  get_access_token lib c = Ok t ->
  is_token_expired lib t = false ->
  exists w' : World,
    authenticate lib config fuel hooks w = Returned (Some t) w' /\
    cached_record config w' = Some t /\
    forall (fuel' : nat) (hooks' : Hooks),
      authenticate lib config fuel' hooks' w' =
      Returned (Some t) (notified (on_success hooks') EOnSuccess w').
Proof.
  intros Hs Hc Hp Hq Hin Hcode Hne Hk Hok Hexp.
  assert (Hget : do_GET lib CallbackHandler.empty path =
                 (CallbackHandler.mk (Some c) None,
                  mkResponse 200 [("Content-type", "text/html")] SuccessPage)).
  { unfold do_GET. rewrite Hcode. reflexivity. }
  assert (Hset : fst (do_GET lib CallbackHandler.empty path) <> CallbackHandler.empty)
    by (rewrite Hget; discriminate).
  destruct (authenticate_first_result lib config fuel hooks w k path
              Hs Hc Hp Hq Hin Hset Hk)
    as (Hauth & Hh & _).
  rewrite Hget in Hh. simpl in Hh.
  rewrite (conclude_code lib config hooks _ c Hh Hne), Hok in Hauth.
  eexists. split; [exact Hauth|].
  set (w' := notified _ _ _).
  assert (Ho : _oauth w' = Some (new_oauth config)).
  { unfold w', notified, stored, closed, answered.
    destruct (on_success hooks); simpl;
      destruct (handle_request_frame lib (callback_server lib config)
                  (steps lib (callback_server lib config) k
                     (listening lib config hooks w))) as (_ & _ & -> & _);
      destruct (steps_frame lib (callback_server lib config) k
                  (listening lib config hooks w)) as (_ & _ & -> & _);
      unfold listening; destruct (on_waiting hooks); reflexivity. }
  assert (Hc' : cached_record config w' = Some t).
  { unfold w', notified, stored, cached_record.
    destruct (on_success hooks); simpl; now rewrite lookup_insert_eq. }
  split; [exact Hc'|].
  intros fuel' hooks'.
  assert (Hs' : session_ok config w') by now right.
  unfold authenticate. unfold bind at 1.
  rewrite (get_cached_token_valid lib config w' t Hs' Hc' Hexp).
  assert (Hw : with_session config w' = w').
  { unfold with_session. destruct w'; simpl in *. now subst. }
  rewrite Hw.
  unfold bind, call_hook, notified. destruct (on_success hooks'); reflexivity.
Qed.

(** X5. When the callback port is already in use, the attempt fails at the
    [HTTPServer] constructor with the socket error: the exception leaves
    [authenticate()], no browser is opened and no hook is called, the
    files and the bound ports are as before; the mailbox has been reset. *)
Theorem port_in_use_is_fatal
    (lib : Library) (config : Config) (fuel : nat) (hooks : Hooks) (w : World) :
  session_ok config w ->
  cached_record config w = None ->
  callback_port lib config ∈ bound w ->
  exists w' : World,
    authenticate lib config fuel hooks w =
      Raised "OSError: [Errno 98] Address already in use" w' /\
    trace w' = trace w ++ [EBind (callback_port lib config)] /\
    bound w' = bound w /\
    fs w' = fs w /\
    handler w' = CallbackHandler.empty /\
    accepted w' = accepted w.
Proof.
  intros Hs Hc Hp. eexists. split.
  - exact (authenticate_bind_fails lib config fuel hooks w Hs Hc Hp).
  - simpl. auto.
Qed.

(** X6. On every attempt that goes to the listener, and at every point of
    it, the calls start with the bind, then the browser, then the waiting
    hook (when given), and none of the three is made again: the port is
    bound before the authorization URL is opened. *)
Theorem attempt_binds_before_it_browses
    (lib : Library) (config : Config) (fuel : nat) (hooks : Hooks) (w : World) :
  session_ok config w ->
  cached_record config w = None ->
  callback_port lib config ∉ bound w ->
  exists rest : list Effect,
    trace (world_of (authenticate lib config fuel hooks w)) =
      trace w ++
      [EBind (callback_port lib config);
       EOpenBrowser (get_authorize_url lib (new_oauth config))] ++
      (if on_waiting hooks then [EOnWaiting] else []) ++ rest /\
    calls is_bind rest = [] /\
    calls is_browser rest = [] /\
    calls is_waiting rest = [].
Proof.
  intros Hs Hc Hp.
  destruct (authenticate_miss_cases lib config fuel hooks w Hs Hc Hp)
    as [(Hq & -> & _)|(k & path & Hk & Hq & Hin & Hset & -> & _)].
  - destruct (steps_quiet lib (callback_server lib config) fuel _
                (quiet_until_listening lib config hooks w fuel Hq))
      as (_ & resps & Ht & Hall).
    exists resps. simpl. rewrite Ht, trace_listening, <- !app_assoc.
    split; [reflexivity|].
    repeat split; apply (calls_uniform _ _ _ Hall); reflexivity.
  - destruct (authenticate_first_result lib config fuel hooks w k path
                Hs Hc Hp Hq Hin Hset Hk)
      as (_ & _ & _ & _ & _ & resps & Hall & Ht).
    destruct (conclude_effects lib config hooks (answered lib config hooks k w))
      as (evs & Hte & Hkinds & _).
    exists (resps ++ [ERespond (snd (do_GET lib CallbackHandler.empty path))] ++
            EClose (callback_port lib config) :: evs).
    split.
    { rewrite Hte, Ht, <- !app_assoc. reflexivity. }
    assert (Hnone : forall p, p (ERespond (mkResponse 400 [] EmptyBody)) = false ->
               p (ERespond (snd (do_GET lib CallbackHandler.empty path))) = false ->
               p (EClose (callback_port lib config)) = false ->
               Forall (fun e => p e = false) evs ->
               calls p (resps ++
                        [ERespond (snd (do_GET lib CallbackHandler.empty path))] ++
                        EClose (callback_port lib config) :: evs) = []).
    { intros p H1 H2 H3 H4.
      rewrite !calls_app, (calls_uniform _ _ _ Hall H1). simpl.
      rewrite H2, H3. simpl. now apply calls_none. }
    repeat split; apply Hnone; try reflexivity;
      (eapply Forall_impl; [exact Hkinds|]);
      intros e (H1 & H2 & H3 & H4); assumption.
Qed.

(** X7. A failed code exchange is reported and leaves nothing behind: when
    the token endpoint rejects the code, the exception is caught, the error
    hook (when given) is called once with the exception's message, the
    success hook is not called, [authenticate()] returns [None], the files
    are untouched, so no token is persisted, and the port is released. *)
Theorem failed_exchange_persists_nothing
    (lib : Library) (config : Config) (fuel : nat) (hooks : Hooks)
    (w : World) (k : nat) (path c msg : string) (rest : list string) :
  session_ok config w ->
  cached_record config w = None ->
  callback_port lib config ∉ bound w ->
  quiet_until lib w k ->
  inbound w (accepted w + k)%nat = Get path ->
  parse_query lib path !! "code" = Some (c, rest) ->
  c <> "" ->
  (k < fuel)%nat ->
  get_access_token lib c = Err msg ->
  exists (w' : World) (evs : list Effect),
    authenticate lib config fuel hooks w = Returned None w' /\
    trace w' = trace w ++ evs /\
    calls is_error evs = (if on_error hooks then [EOnError msg] else []) /\
    calls is_success evs = [] /\
    calls is_exchange evs = [EExchange c] /\
    fs w' = fs w /\
    cached_record config w' = None /\
    bound w' = bound w.
Proof.
  intros Hs Hc Hp Hq Hin Hcode Hne Hk Herr.
  assert (Hget : do_GET lib CallbackHandler.empty path =
                 (CallbackHandler.mk (Some c) None,
                  mkResponse 200 [("Content-type", "text/html")] SuccessPage)).
  { unfold do_GET. rewrite Hcode. reflexivity. }
  assert (Hset : fst (do_GET lib CallbackHandler.empty path) <> CallbackHandler.empty)
    by (rewrite Hget; discriminate).
  destruct (authenticate_first_result lib config fuel hooks w k path
              Hs Hc Hp Hq Hin Hset Hk)
    as (Hauth & Hh & _ & Hf & Hb & resps & Hall & Ht).
  rewrite Hget in Hh, Ht. simpl in Hh, Ht.
  rewrite (conclude_code lib config hooks _ c Hh Hne), Herr in Hauth.
  assert (Hcache : forall v : World, fs v = fs w -> cached_record config v = None).
  { intros v Hv. unfold cached_record in *. now rewrite Hv. }
  pose proof (calls_uniform is_error _ _ Hall eq_refl) as E1.
  pose proof (calls_uniform is_success _ _ Hall eq_refl) as E2.
  pose proof (calls_uniform is_exchange _ _ Hall eq_refl) as E3.
  unfold calls in *.
  unfold notified, closed in Hauth.
  destruct (on_error hooks), (on_waiting hooks);
    (eexists _, _; split; [exact Hauth|]); simpl;
    (split; [rewrite Ht, <- ?app_assoc; simpl; rewrite <- ?app_assoc; reflexivity|]);
    (do 3 (split; [simpl; rewrite ?List.filter_app, ?E1, ?E2, ?E3; reflexivity|]));
    (split; [exact Hf|]); (split; [apply Hcache; exact Hf|]);
    rewrite Hb; now apply restored.
Qed.

(** X8. The port is given back on every return: whenever an attempt that
    bound the port returns, with or without a token, [server_close()] has
    been called exactly once and the set of bound ports is what it was
    before the call. *)
Theorem port_is_given_back
    (lib : Library) (config : Config) (fuel : nat) (hooks : Hooks)
    (w w' : World) (r : option TokenInfo) :
  session_ok config w ->
  cached_record config w = None ->
  callback_port lib config ∉ bound w ->
  authenticate lib config fuel hooks w = Returned r w' ->
  bound w' = bound w /\
  exists evs : list Effect,
    trace w' = trace w ++ evs /\
    calls is_close evs = [EClose (callback_port lib config)] /\
    calls is_bind evs = [EBind (callback_port lib config)].
Proof.
  intros Hs Hc Hp Hret.
  destruct (authenticate_miss_cases lib config fuel hooks w Hs Hc Hp)
    as [(_ & Hw & _)|(k & path & Hk & Hq & Hin & Hset & Hauth & _)].
  { rewrite Hw in Hret. discriminate. }
  destruct (authenticate_first_result lib config fuel hooks w k path
              Hs Hc Hp Hq Hin Hset Hk)
    as (_ & _ & _ & _ & Hb & resps & Hall & Ht).
  destruct (conclude_effects lib config hooks (answered lib config hooks k w))
    as (evs & Hte & Hkinds & Hbound).
  rewrite <- Hauth, Hret in Hte, Hbound. simpl in Hte, Hbound.
  split.
  { rewrite Hbound, Hb. now apply restored. }
  eexists. split.
  { rewrite Hte, Ht, <- !app_assoc. reflexivity. }
  split.
  - filter_trace. simpl. rewrite (calls_uniform _ _ _ Hall) by reflexivity.
    destruct (on_waiting hooks); simpl;
      (rewrite calls_none; [reflexivity|]);
      (eapply Forall_impl; [exact Hkinds|]); intros e (_ & _ & _ & H); exact H.
  - filter_trace. simpl. rewrite (calls_uniform _ _ _ Hall) by reflexivity.
    destruct (on_waiting hooks); simpl;
      (rewrite calls_none; [reflexivity|]);
      (eapply Forall_impl; [exact Hkinds|]); intros e (H & _); exact H.
Qed.

(** X9. The session object is kept consistent: if [self._oauth] is unset or
    is the object built from the configuration, the same holds after
    [authenticate()] (however it ends), after [get_spotify_client()] and
    after [logout()]; after [logout()] it is unset. *)
Theorem session_object_stays_consistent
    (lib : Library) (config : Config) (fuel : nat) (hooks : Hooks) (w : World) :
  session_ok config w ->
  session_ok config (world_of (authenticate lib config fuel hooks w)) /\
  session_ok config (world_of (get_spotify_client lib config w)) /\
  session_ok config (world_of (logout config w)) /\
  _oauth (world_of (logout config w)) = None /\
  _oauth (world_of (get_spotify_client lib config w)) = Some (new_oauth config).
Proof.
  intros Hs.
  assert (Hclient : _oauth (world_of (get_spotify_client lib config w)) =
                    Some (new_oauth config)).
  { unfold get_spotify_client, bind.
    destruct (cached_record config w) as [t|] eqn:Hc.
    - destruct (is_token_expired lib t) eqn:He.
      + destruct (refresh_access_token lib (refresh_token t)) as [t'|msg] eqn:Hr.
        * now rewrite (get_cached_token_refreshed lib config w t t' Hs Hc He Hr).
        * now rewrite (get_cached_token_refresh_raises lib config w t msg Hs Hc He Hr).
      + now rewrite (get_cached_token_valid lib config w t Hs Hc He).
    - now rewrite (get_cached_token_miss lib config w Hs Hc). }
  split; [now apply authenticate_keeps_session|].
  split; [now right|].
  split; [apply logout_keeps_session|].
  split; [|exact Hclient].
  unfold logout, bind, os_path_exists, os_remove, read.
  destruct (fs w !! token_cache_path config) as [f|] eqn:E.
  - rewrite bool_decide_eq_true_2 by eauto. rewrite E. reflexivity.
  - rewrite bool_decide_eq_false_2 by (intros [x Hx]; discriminate). reflexivity.
Qed.

(** ** Concrete runs of the properties above *)

Lemma refresh_is_stored_and_reused_witness :
  exists w1 : World,
    get_cached_token renewing_lib demo_config
      (boot (cache_with expired_token) silence) = Returned (Some fresh_token) w1 /\
    trace w1 = [ERefresh "AQC-refresh"] /\
    get_cached_token renewing_lib demo_config w1 = Returned (Some fresh_token) w1.
Proof.
  destruct (refresh_is_stored_and_reused renewing_lib demo_config
              (boot (cache_with expired_token) silence) expired_token fresh_token)
    as (w1 & Hret & Ht & _ & _ & Hagain).
  - left. reflexivity.
  - vm_compute. reflexivity.
  - reflexivity.
  - reflexivity.
  - reflexivity.
  - exists w1. split; [exact Hret|]. split; [exact Ht|exact Hagain].
Defined.

Lemma get_spotify_client_uses_the_cache_only_witness :
  get_spotify_client demo_lib demo_config (boot (cache_with demo_token) silence) =
    Returned (Some (mkSpotify "BQD-access"))
      (with_session demo_config (boot (cache_with demo_token) silence)) /\
  bound (world_of (get_spotify_client demo_lib demo_config
                     (boot (cache_with demo_token) silence))) = ∅.
Proof.
  destruct (get_spotify_client_uses_the_cache_only demo_lib demo_config
              (boot (cache_with demo_token) silence))
    as (Hb & _ & Hcase).
  - left. reflexivity.
  - split; [|exact Hb].
    replace (cached_record demo_config (boot (cache_with demo_token) silence))
      with (Some demo_token) in Hcase by (vm_compute; reflexivity).
    exact Hcase.
Defined.

Lemma logout_forgets_the_token_witness :
  exists w1 : World,
    logout demo_config (boot (cache_with demo_token) silence) = Returned tt w1 /\
    get_spotify_client demo_lib demo_config w1 =
      Returned None (with_session demo_config w1) /\
    authenticate demo_lib demo_config 0 all_hooks w1 =
      Waiting (listening demo_lib demo_config all_hooks w1).
Proof.
  destruct (logout_forgets_the_token demo_lib demo_config all_hooks
              (boot (cache_with demo_token) silence))
    as (w1 & Hlog & Hclient & Hauth & _).
  - apply demo_port_free.
  - exists w1. split; [exact Hlog|]. split; [exact Hclient|exact Hauth].
Defined.

Lemma exchanged_token_is_cached_witness :
  exists w' : World,
    authenticate demo_lib demo_config 3 all_hooks (boot ∅ code_traffic) =
      Returned (Some fresh_token) w' /\
    cached_record demo_config w' = Some fresh_token /\
    authenticate demo_lib demo_config 0 all_hooks w' =
      Returned (Some fresh_token) (notified true EOnSuccess w').
Proof.
  destruct (exchanged_token_is_cached demo_lib demo_config 3 all_hooks
              (boot ∅ code_traffic) 2 "/callback?code=ABC123" "ABC123" []
              fresh_token)
    as (w' & Hret & Hc & Hnext).
  - left. reflexivity.
  - reflexivity.
  - apply demo_port_free.
  - apply demo_quiet_prefix.
  - reflexivity.
  - vm_compute. reflexivity.
  - discriminate.
  - lia.
  - reflexivity.
  - reflexivity.
  - exists w'. split; [exact Hret|]. split; [exact Hc|].
    exact (Hnext 0%nat all_hooks).
Defined.

Lemma port_in_use_is_fatal_witness :
  exists w' : World,
    authenticate demo_lib demo_config 5 all_hooks
      (set_bound {[8888]} (boot ∅ code_traffic)) =
      Raised "OSError: [Errno 98] Address already in use" w' /\
    trace w' = [EBind 8888].
Proof.
  destruct (port_in_use_is_fatal demo_lib demo_config 5 all_hooks
              (set_bound {[8888]} (boot ∅ code_traffic)))
    as (w' & Hret & Ht & _).
  - left. reflexivity.
  - reflexivity.
  - vm_compute. reflexivity.
  - exists w'. split; [exact Hret|exact Ht].
Defined.

Lemma attempt_binds_before_it_browses_witness :
  exists rest : list Effect,
    trace (world_of (authenticate demo_lib demo_config 2 all_hooks
                       (boot ∅ code_traffic))) =
      [EBind 8888;
       EOpenBrowser "https://accounts.spotify.com/authorize?client_id=cid";
       EOnWaiting] ++ rest /\
    calls is_bind rest = [].
Proof.
  destruct (attempt_binds_before_it_browses demo_lib demo_config 2 all_hooks
              (boot ∅ code_traffic))
    as (rest & Ht & Hb & _).
  - left. reflexivity.
  - reflexivity.
  - apply demo_port_free.
  - exists rest. split; [exact Ht|exact Hb].
Defined.

Lemma failed_exchange_persists_nothing_witness :
  exists w' : World,
    authenticate demo_lib demo_config 1 all_hooks (boot ∅ stale_code_traffic) =
      Returned None w' /\
    calls is_error (trace w') = [EOnError "invalid_grant"] /\
    fs w' = ∅ /\
    bound w' = ∅.
Proof.
  destruct (failed_exchange_persists_nothing demo_lib demo_config 1 all_hooks
              (boot ∅ stale_code_traffic) 0 "/callback?code=USED-TWICE"
              "USED-TWICE" "invalid_grant" [])
    as (w' & evs & Hret & Ht & Herr & _ & _ & Hf & _ & Hb).
  - left. reflexivity.
  - reflexivity.
  - apply demo_port_free.
  - intros i Hi. lia.
  - reflexivity.
  - vm_compute. reflexivity.
  - discriminate.
  - lia.
  - reflexivity.
  - exists w'. split; [exact Hret|]. split; [rewrite Ht; exact Herr|].
    split; [exact Hf|exact Hb].
Defined.

Lemma port_is_given_back_witness :
  bound (world_of (authenticate demo_lib demo_config 3 all_hooks
                     (boot ∅ denied_traffic))) = ∅.
Proof.
  destruct (authenticate demo_lib demo_config 3 all_hooks (boot ∅ denied_traffic))
    as [r w'|exc w'|w'] eqn:Hrun; try (vm_compute in Hrun; discriminate).
  destruct (port_is_given_back demo_lib demo_config 3 all_hooks
              (boot ∅ denied_traffic) w' r)
    as (Hb & _).
  - left. reflexivity.
  - reflexivity.
  - apply demo_port_free.
  - exact Hrun.
  - exact Hb.
Defined.

Lemma session_object_stays_consistent_witness :
  session_ok demo_config
    (world_of (authenticate demo_lib demo_config 3 all_hooks (boot ∅ code_traffic))) /\
  _oauth (world_of (logout demo_config (boot (cache_with demo_token) silence))) = None.
Proof.
  destruct (session_object_stays_consistent demo_lib demo_config 3 all_hooks
              (boot ∅ code_traffic))
    as (Ha & _).
  - left. reflexivity.
  - split; [exact Ha|].
    destruct (session_object_stays_consistent demo_lib demo_config 3 all_hooks
                (boot (cache_with demo_token) silence))
      as (_ & _ & _ & Hl & _).
    + left. reflexivity.
    + exact Hl.
Defined.

(** * Beyond the listed claims: the API client wrapper *)

Section ClientFacts.

Variable lib : Library.
Variable config : Config.
Variable web_api : Spotify -> list ApiCall -> ApiCall -> ApiResult.

Lemma ensure_ok c s :
  SpotifyClient._sp c = Some s ->
  SpotifyClient._ensure_authenticated c = SpotifyClient.Returns tt c.
Proof.
  intros H. unfold SpotifyClient._ensure_authenticated, SpotifyClient.is_authenticated.
  now rewrite H.
Qed.

Lemma ensure_fails c :
  SpotifyClient._sp c = None ->
  SpotifyClient._ensure_authenticated c =
  SpotifyClient.Raises (RuntimeError "Not authenticated") c.
Proof.
  intros H. unfold SpotifyClient._ensure_authenticated, SpotifyClient.is_authenticated.
  now rewrite H.
Qed.

Lemma call_answer c s request :
  SpotifyClient._sp c = Some s ->
  SpotifyClient.call web_api request c =
  match web_api s (SpotifyClient.api_calls c) request with
  | ApiOk v => SpotifyClient.Returns v (called request c)
  | ApiSpotifyException msg =>
      SpotifyClient.Raises (SpotifyException msg) (called request c)
  | ApiOtherException name =>
      SpotifyClient.Raises (OtherException name) (called request c)
  end.
Proof.
  intros H. unfold SpotifyClient.call, SpotifyClient.bind, SpotifyClient.sp.
  rewrite H. reflexivity.
Qed.

(** One guarded call, as in [play], [pause] and the like. *)
Lemma guarded_call c s request :
  SpotifyClient._sp c = Some s ->
  SpotifyClient.bind SpotifyClient._ensure_authenticated
    (fun _ => SpotifyClient.except_spotify
                (SpotifyClient.bind (SpotifyClient.call web_api request)
                   (fun _ => SpotifyClient.ret true))
                (SpotifyClient.ret false)) c =
  one_call (web_api s (SpotifyClient.api_calls c) request) (called request c).
Proof.
  intros H. unfold SpotifyClient.bind at 1. rewrite (ensure_ok c s H).
  unfold SpotifyClient.except_spotify, SpotifyClient.bind.
  rewrite (call_answer c s request H).
  destruct (web_api s (SpotifyClient.api_calls c) request); reflexivity.
Qed.

(** [get_playback_state] on an answer that is a non-empty dict whose
    [item] and [device] are each falsy or a dict. *)
Lemma get_playback_state_dict c s fields :
  SpotifyClient._sp c = Some s ->
  web_api s (SpotifyClient.api_calls c) CurrentPlayback = ApiOk (JDict fields) ->
  fields <> [] ->
  falsy_or_dict (dict_get fields "item" JNull) = true ->
  falsy_or_dict (dict_get fields "device" JNull) = true ->
  exists st,
    SpotifyClient.get_playback_state web_api c =
      SpotifyClient.Returns (Some st) (called CurrentPlayback c) /\
    SpotifyClient.is_playing st = dict_get fields "is_playing" (JBool false) /\
    SpotifyClient.track st = dict_get fields "item" JNull /\
    SpotifyClient.device st = dict_get fields "device" JNull /\
    SpotifyClient.progress_ms st =
      (if py_bool (dict_get fields "progress_ms" (JNum 0))
       then dict_get fields "progress_ms" (JNum 0) else JNum 0) /\
    SpotifyClient.duration_ms st =
      match dict_get fields "item" JNull with
      | JDict (f :: item) => dict_get (f :: item) "duration_ms" (JNum 0)
      | _ => JNum 0
      end /\
    SpotifyClient.shuffle_state st = dict_get fields "shuffle_state" (JBool false) /\
    SpotifyClient.repeat_state st = dict_get fields "repeat_state" (JStr "off") /\
    SpotifyClient.volume_percent st =
      match dict_get fields "device" JNull with
      | JDict (f :: dev) => dict_get (f :: dev) "volume_percent" (JNum 50)
      | _ => JNum 50
      end /\
    SpotifyClient.context st = dict_get fields "context" JNull.
Proof.
  intros Hsp Hapi Hne Hitem Hdev.
  unfold SpotifyClient.get_playback_state.
  unfold SpotifyClient.bind at 1. rewrite (ensure_ok c s Hsp).
  unfold SpotifyClient.except_spotify.
  unfold SpotifyClient.bind at 1. rewrite (call_answer c s _ Hsp), Hapi.
  destruct fields as [|f0 fields]; [contradiction|].
  set (fs0 := f0 :: fields) in *.
  assert (Hb : py_bool (JDict fs0) = true) by reflexivity.
  rewrite Hb. cbn [negb].
  unfold SpotifyClient.attr_get, SpotifyClient.bind, SpotifyClient.ret.
  unfold dict_get in *.
  destruct (dict_lookup fs0 "item") as [[| [|] |n|str|[|i items]|[|f item]|nu de]|];
    try discriminate Hitem;
    destruct (dict_lookup fs0 "device") as [[| [|] |m|str'|[|d ds]|[|g dev]|nu' de']|];
    try discriminate Hdev;
    cbn [py_bool negb falsy_or_dict] in *;
    try (destruct (Z.eqb n 0) eqn:En; [|discriminate Hitem]; cbn [negb]);
    try (destruct (String.eqb str "") eqn:Es; [|discriminate Hitem]; cbn [negb]);
    try (destruct (Z.eqb m 0) eqn:Em; [|discriminate Hdev]; cbn [negb]);
    try (destruct (String.eqb str' "") eqn:Es'; [|discriminate Hdev]; cbn [negb]);
    try (destruct (Z.eqb nu 0) eqn:Enu; [|discriminate Hitem]; cbn [negb]);
    try (destruct (Z.eqb nu' 0) eqn:Enu'; [|discriminate Hdev]; cbn [negb]);
    eexists; (split; [reflexivity|]); cbn; auto 12.
Qed.

End ClientFacts.

Section ClientPaths.

Variable web_api : Spotify -> list ApiCall -> ApiCall -> ApiResult.

Lemma get_playback_state_idle c s v :
  SpotifyClient._sp c = Some s ->
  web_api s (SpotifyClient.api_calls c) CurrentPlayback = ApiOk v ->
  py_bool v = false ->
  SpotifyClient.get_playback_state web_api c =
  SpotifyClient.Returns (Some SpotifyClient.default_state) (called CurrentPlayback c).
Proof.
  intros Hsp Hapi Hv. unfold SpotifyClient.get_playback_state.
  unfold SpotifyClient.bind at 1. rewrite (ensure_ok c s Hsp).
  unfold SpotifyClient.except_spotify.
  unfold SpotifyClient.bind at 1. rewrite (call_answer web_api c s _ Hsp), Hapi.
  rewrite Hv. reflexivity.
Qed.

Lemma get_playback_state_unavailable c s msg :
  SpotifyClient._sp c = Some s ->
  web_api s (SpotifyClient.api_calls c) CurrentPlayback = ApiSpotifyException msg ->
  SpotifyClient.get_playback_state web_api c =
  SpotifyClient.Returns None (called CurrentPlayback c).
Proof.
  intros Hsp Hapi. unfold SpotifyClient.get_playback_state.
  unfold SpotifyClient.bind at 1. rewrite (ensure_ok c s Hsp).
  unfold SpotifyClient.except_spotify.
  unfold SpotifyClient.bind at 1. rewrite (call_answer web_api c s _ Hsp), Hapi.
  reflexivity.
Qed.

Lemma get_playback_state_breaks c s name :
  SpotifyClient._sp c = Some s ->
  web_api s (SpotifyClient.api_calls c) CurrentPlayback = ApiOtherException name ->
  SpotifyClient.get_playback_state web_api c =
  SpotifyClient.Raises (OtherException name) (called CurrentPlayback c).
Proof.
  intros Hsp Hapi. unfold SpotifyClient.get_playback_state.
  unfold SpotifyClient.bind at 1. rewrite (ensure_ok c s Hsp).
  unfold SpotifyClient.except_spotify.
  unfold SpotifyClient.bind at 1. rewrite (call_answer web_api c s _ Hsp), Hapi.
  reflexivity.
Qed.

End ClientPaths.

(** X10. [SpotifyClient.authenticate()] only reads the token cache.  When
    it returns [True] the client is authenticated and the token its API
    client carries is the access token of the record now in the cache; when
    it returns [False] there is no readable record and [_sp] is what it
    was, so a client that was authenticated stays so.  Either way no API
    call is made and no port is bound. *)
Theorem client_authenticate_reads_the_cache
    (lib : Library) (config : Config) (c c' : SpotifyClient.t) (b : bool) :
  session_ok config (SpotifyClient.session c) ->
  SpotifyClient.authenticate lib config c = SpotifyClient.Returns b c' ->
  (if b
   then exists tok,
          cached_record config (SpotifyClient.session c') = Some tok /\
          SpotifyClient._sp c' = Some (mkSpotify (access_token tok)) /\
          SpotifyClient.is_authenticated c' = true
   else cached_record config (SpotifyClient.session c) = None /\
        SpotifyClient._sp c' = SpotifyClient._sp c) /\
  SpotifyClient.api_calls c' = SpotifyClient.api_calls c /\
  bound (SpotifyClient.session c') = bound (SpotifyClient.session c).
Proof.
  intros Hs. unfold SpotifyClient.authenticate, SpotifyClient.bind,
    SpotifyClient.auth_get_cached_token.
  destruct (cached_record config (SpotifyClient.session c)) as [t|] eqn:Hc.
  - destruct (is_token_expired lib t) eqn:He.
    + destruct (refresh_access_token lib (refresh_token t)) as [t'|msg] eqn:Hr.
      * rewrite (get_cached_token_refreshed lib config _ t t' Hs Hc He Hr).
        intros [= <- <-]. split; [|auto].
        exists t'. simpl. unfold cached_record. simpl.
        rewrite lookup_insert_eq. auto.
      * rewrite (get_cached_token_refresh_raises lib config _ t msg Hs Hc He Hr).
        discriminate.
    + rewrite (get_cached_token_valid lib config _ t Hs Hc He).
      intros [= <- <-]. split; [|auto].
      exists t. simpl. split; [exact Hc|auto].
  - rewrite (get_cached_token_miss lib config _ Hs Hc).
    intros [= <- <-]. simpl. auto.
Qed.

(** X11. Without an API client every command refuses before touching the
    network: [get_playback_state], [play], [pause], [toggle_playback],
    [next_track], [previous_track], [seek], [set_volume], [toggle_shuffle]
    and [cycle_repeat] raise [RuntimeError("Not authenticated")], make no
    API call and leave the client as it was; the property [sp] raises its
    own [RuntimeError]. *)
Theorem unauthenticated_commands_raise
    (web_api : Spotify -> list ApiCall -> ApiCall -> ApiResult)
    (c : SpotifyClient.t) (device_id : option string) (n : Z) :
  SpotifyClient._sp c = None ->
  let refused {A} (o : SpotifyClient.Outcome A) :=
    o = SpotifyClient.Raises (RuntimeError "Not authenticated") c in
  refused (SpotifyClient.get_playback_state web_api c) /\
  refused (SpotifyClient.play web_api device_id c) /\
  refused (SpotifyClient.pause web_api device_id c) /\
  refused (SpotifyClient.toggle_playback web_api device_id c) /\
  refused (SpotifyClient.next_track web_api device_id c) /\
  refused (SpotifyClient.previous_track web_api device_id c) /\
  refused (SpotifyClient.seek web_api n device_id c) /\
  refused (SpotifyClient.set_volume web_api n device_id c) /\
  refused (SpotifyClient.toggle_shuffle web_api device_id c) /\
  refused (SpotifyClient.cycle_repeat web_api device_id c) /\
  SpotifyClient.sp c =
    SpotifyClient.Raises
      (RuntimeError "Not authenticated. Call authenticate() first.") c.
Proof.
  intros H refused. unfold refused.
  assert (Hstate : SpotifyClient.get_playback_state web_api c =
                   SpotifyClient.Raises (RuntimeError "Not authenticated") c).
  { unfold SpotifyClient.get_playback_state, SpotifyClient.bind.
    now rewrite (ensure_fails c H). }
  repeat split;
    try exact Hstate;
    try (unfold SpotifyClient.play, SpotifyClient.pause, SpotifyClient.next_track,
           SpotifyClient.previous_track, SpotifyClient.seek,
           SpotifyClient.set_volume, SpotifyClient.toggle_shuffle,
           SpotifyClient.cycle_repeat, SpotifyClient.bind;
         now rewrite (ensure_fails c H)).
  - unfold SpotifyClient.toggle_playback, SpotifyClient.bind. now rewrite Hstate.
  - unfold SpotifyClient.sp. now rewrite H.
Qed.

(** X12. An authenticated [play], [pause], [next_track], [previous_track]
    or [seek] makes exactly one API call; it returns [True] when the call
    goes through, [False] when it raises [SpotifyException], and lets any
    other exception out. *)
Theorem commands_make_one_call
    (web_api : Spotify -> list ApiCall -> ApiCall -> ApiResult)
    (c : SpotifyClient.t) (s : Spotify) (device_id : option string) (pos : Z) :
  SpotifyClient._sp c = Some s ->
  let outcome request :=
    one_call (web_api s (SpotifyClient.api_calls c) request) (called request c) in
  SpotifyClient.play web_api device_id c = outcome (StartPlayback device_id) /\
  SpotifyClient.pause web_api device_id c = outcome (PausePlayback device_id) /\
  SpotifyClient.next_track web_api device_id c = outcome (NextTrack device_id) /\
  SpotifyClient.previous_track web_api device_id c =
    outcome (PreviousTrack device_id) /\
  SpotifyClient.seek web_api pos device_id c = outcome (SeekTrack pos device_id) /\
  (forall request,
      SpotifyClient.api_calls (SpotifyClient.state_of (outcome request)) =
      SpotifyClient.api_calls c ++ [request]) /\
  (forall request msg c',
      outcome request <> SpotifyClient.Raises (SpotifyException msg) c').
Proof.
  intros H outcome. unfold outcome.
  repeat split; try (now apply guarded_call).
  - intros request. unfold one_call.
    destruct (web_api s (SpotifyClient.api_calls c) request); reflexivity.
  - intros request msg c'. unfold one_call.
    destruct (web_api s (SpotifyClient.api_calls c) request); discriminate.
Qed.

(** X13. [set_volume] never asks the API for a volume outside 0..100: the
    single call it makes carries the requested value clamped to that
    range, which is the value itself when it is in range. *)
Theorem set_volume_is_clamped
    (web_api : Spotify -> list ApiCall -> ApiCall -> ApiResult)
    (c : SpotifyClient.t) (s : Spotify) (device_id : option string) (vol : Z) :
  SpotifyClient._sp c = Some s ->
  exists v : Z,
    SpotifyClient.set_volume web_api vol device_id c =
      one_call (web_api s (SpotifyClient.api_calls c) (Volume v device_id))
               (called (Volume v device_id) c) /\
    0 <= v <= 100 /\
    (0 <= vol <= 100 -> v = vol) /\
    (vol < 0 -> v = 0) /\
    (100 < vol -> v = 100).
Proof.
  intros H. exists (Z.max 0 (Z.min 100 vol)). split.
  - unfold SpotifyClient.set_volume. now apply guarded_call.
  - lia.
Qed.

(** X14. [get_playback_state] fills in what the API leaves out.  An answer
    of [None] or an empty dict gives the default state; a
    [SpotifyException] gives [None]; any other exception gets out.  For a
    dict answer (with [item] and [device] each absent, null or a dict) the
    progress is never [None] ([0] replaces a missing, null or zero value),
    the duration is [0] without an item and the volume [50] without a
    device. *)
Theorem playback_state_defaults
    (web_api : Spotify -> list ApiCall -> ApiCall -> ApiResult)
    (c : SpotifyClient.t) (s : Spotify) :
  SpotifyClient._sp c = Some s ->
  match web_api s (SpotifyClient.api_calls c) CurrentPlayback with
  | ApiSpotifyException _ =>
      SpotifyClient.get_playback_state web_api c =
      SpotifyClient.Returns None (called CurrentPlayback c)
  | ApiOtherException name =>
      SpotifyClient.get_playback_state web_api c =
      SpotifyClient.Raises (OtherException name) (called CurrentPlayback c)
  | ApiOk (JDict (f :: fields)) =>
      falsy_or_dict (dict_get (f :: fields) "item" JNull) = true ->
      falsy_or_dict (dict_get (f :: fields) "device" JNull) = true ->
      exists st,
        SpotifyClient.get_playback_state web_api c =
          SpotifyClient.Returns (Some st) (called CurrentPlayback c) /\
        SpotifyClient.progress_ms st <> JNull /\
        (py_bool (SpotifyClient.progress_ms st) = true \/
         SpotifyClient.progress_ms st = JNum 0) /\
        (py_bool (dict_get (f :: fields) "item" JNull) = false ->
         SpotifyClient.duration_ms st = JNum 0) /\
        (py_bool (dict_get (f :: fields) "device" JNull) = false ->
         SpotifyClient.volume_percent st = JNum 50) /\
        SpotifyClient.is_playing st = dict_get (f :: fields) "is_playing" (JBool false) /\
        SpotifyClient.repeat_state st = dict_get (f :: fields) "repeat_state" (JStr "off")
  | ApiOk v =>
      py_bool v = false ->
      SpotifyClient.get_playback_state web_api c =
      SpotifyClient.Returns (Some SpotifyClient.default_state) (called CurrentPlayback c)
  end.
Proof.
  intros Hsp.
  destruct (web_api s (SpotifyClient.api_calls c) CurrentPlayback)
    as [v|msg|name] eqn:Hapi.
  - assert (Hidle : py_bool v = false ->
              SpotifyClient.get_playback_state web_api c =
              SpotifyClient.Returns (Some SpotifyClient.default_state)
                (called CurrentPlayback c))
      by (intros Hv; now apply (get_playback_state_idle web_api c s v)).
    destruct v as [| bo |n|str|items|[|f fields]|nu de]; try exact Hidle.
    intros Hitem Hdev.
    destruct (get_playback_state_dict web_api c s (f :: fields) Hsp Hapi)
      as (st & Hret & Hplay & _ & _ & Hprog & Hdur & _ & Hrep & Hvol & _);
      [discriminate|exact Hitem|exact Hdev|].
    exists st. split; [exact Hret|].
    assert (Hp : py_bool (SpotifyClient.progress_ms st) = true \/
                 SpotifyClient.progress_ms st = JNum 0).
    { rewrite Hprog.
      destruct (py_bool (dict_get (f :: fields) "progress_ms" (JNum 0))) eqn:E; auto. }
    split.
    { destruct Hp as [Hp|Hp]; rewrite ?Hp; [|discriminate].
      intros E. rewrite E in Hp. discriminate. }
    split; [exact Hp|].
    split.
    { intros Hfalse. rewrite Hdur.
      destruct (dict_get (f :: fields) "item" JNull) as [| | | | |[|g item]|];
        try reflexivity. discriminate. }
    split.
    { intros Hfalse. rewrite Hvol.
      destruct (dict_get (f :: fields) "device" JNull) as [| | | | |[|g dev]|];
        try reflexivity. discriminate. }
    auto.
  - now apply (get_playback_state_unavailable web_api c s msg).
  - now apply (get_playback_state_breaks web_api c s name).
Qed.

(** X15. [toggle_playback] asks the player first and then makes exactly
    one more call: [pause_playback] when the player reports a truthy
    [is_playing], [start_playback] otherwise, that is also when nothing is
    playing and when the state could not be fetched
    ([SpotifyException]). *)
Theorem toggle_playback_follows_the_player
    (web_api : Spotify -> list ApiCall -> ApiCall -> ApiResult)
    (c : SpotifyClient.t) (s : Spotify) (device_id : option string) :
  SpotifyClient._sp c = Some s ->
  let after request :=
    one_call (web_api s (SpotifyClient.api_calls c ++ [CurrentPlayback]) request)
             (called request (called CurrentPlayback c)) in
  match web_api s (SpotifyClient.api_calls c) CurrentPlayback with
  | ApiSpotifyException _ =>
      SpotifyClient.toggle_playback web_api device_id c =
      after (StartPlayback device_id)
  | ApiOtherException name =>
      SpotifyClient.toggle_playback web_api device_id c =
      SpotifyClient.Raises (OtherException name) (called CurrentPlayback c)
  | ApiOk (JDict (f :: fields)) =>
      falsy_or_dict (dict_get (f :: fields) "item" JNull) = true ->
      falsy_or_dict (dict_get (f :: fields) "device" JNull) = true ->
      SpotifyClient.toggle_playback web_api device_id c =
      after (if py_bool (dict_get (f :: fields) "is_playing" (JBool false))
             then PausePlayback device_id
             else StartPlayback device_id)
  | ApiOk v =>
      py_bool v = false ->
      SpotifyClient.toggle_playback web_api device_id c =
      after (StartPlayback device_id)
  end.
Proof.
  intros Hsp after. unfold after.
  assert (Hsp' : SpotifyClient._sp (called CurrentPlayback c) = Some s) by exact Hsp.
  destruct (web_api s (SpotifyClient.api_calls c) CurrentPlayback)
    as [v|msg|name] eqn:Hapi.
  - assert (Hidle : py_bool v = false ->
              SpotifyClient.toggle_playback web_api device_id c =
              one_call (web_api s (SpotifyClient.api_calls c ++ [CurrentPlayback])
                          (StartPlayback device_id))
                       (called (StartPlayback device_id) (called CurrentPlayback c))).
    { intros Hv. unfold SpotifyClient.toggle_playback. unfold SpotifyClient.bind at 1.
      rewrite (get_playback_state_idle web_api c s v Hsp Hapi Hv).
      cbn [SpotifyClient.is_playing SpotifyClient.default_state py_bool].
      unfold SpotifyClient.play. now apply guarded_call. }
    destruct v as [| bo |n|str|items|[|f fields]|nu de]; try exact Hidle.
    intros Hitem Hdev.
    destruct (get_playback_state_dict web_api c s (f :: fields) Hsp Hapi)
      as (st & Hret & Hplay & _); [discriminate|exact Hitem|exact Hdev|].
    unfold SpotifyClient.toggle_playback. unfold SpotifyClient.bind at 1.
    rewrite Hret, Hplay.
    destruct (py_bool (dict_get (f :: fields) "is_playing" (JBool false))).
    + unfold SpotifyClient.pause. now apply guarded_call.
    + unfold SpotifyClient.play. now apply guarded_call.
  - unfold SpotifyClient.toggle_playback. unfold SpotifyClient.bind at 1.
    rewrite (get_playback_state_unavailable web_api c s msg Hsp Hapi).
    unfold SpotifyClient.play. now apply guarded_call.
  - unfold SpotifyClient.toggle_playback. unfold SpotifyClient.bind at 1.
    now rewrite (get_playback_state_breaks web_api c s name Hsp Hapi).
Qed.

(** X16. [cycle_repeat] steps the repeat mode the player reports:
    [off] to [context], [context] to [track], [track] to [off], and any
    other string to [off]; it returns the mode it asked for when the call
    goes through and ["off"] when the call raises [SpotifyException].
    When nothing is playing the mode counts as [off], so it asks for
    [context]; when the state cannot be fetched it makes no further call
    and returns ["off"]. *)
Theorem cycle_repeat_steps_the_mode
    (web_api : Spotify -> list ApiCall -> ApiCall -> ApiResult)
    (c : SpotifyClient.t) (s : Spotify) (device_id : option string) :
  SpotifyClient._sp c = Some s ->
  let asks next :=
    SpotifyClient.cycle_repeat web_api device_id c =
    repeat_outcome next
      (web_api s (SpotifyClient.api_calls c ++ [CurrentPlayback])
               (Repeat next device_id))
      (called (Repeat next device_id) (called CurrentPlayback c)) in
  match web_api s (SpotifyClient.api_calls c) CurrentPlayback with
  | ApiSpotifyException _ =>
      SpotifyClient.cycle_repeat web_api device_id c =
      SpotifyClient.Returns "off" (called CurrentPlayback c)
  | ApiOtherException name =>
      SpotifyClient.cycle_repeat web_api device_id c =
      SpotifyClient.Raises (OtherException name) (called CurrentPlayback c)
  | ApiOk (JDict (f :: fields)) =>
      falsy_or_dict (dict_get (f :: fields) "item" JNull) = true ->
      falsy_or_dict (dict_get (f :: fields) "device" JNull) = true ->
      forall m : string,
        dict_get (f :: fields) "repeat_state" (JStr "off") = JStr m ->
        exists next : string,
          asks next /\
          (m = "off" -> next = "context") /\
          (m = "context" -> next = "track") /\
          (m = "track" -> next = "off") /\
          (m <> "off" -> m <> "context" -> next = "off")
  | ApiOk v => py_bool v = false -> asks "context"
  end.
Proof.
  intros Hsp asks. unfold asks.
  assert (Hsp' : SpotifyClient._sp (called CurrentPlayback c) = Some s) by exact Hsp.
  assert (Hcall : forall next,
             SpotifyClient.except_spotify
               (SpotifyClient.bind
                  (SpotifyClient.call web_api (Repeat next device_id))
                  (fun _ => SpotifyClient.ret next))
               (SpotifyClient.ret "off") (called CurrentPlayback c) =
             repeat_outcome next
               (web_api s (SpotifyClient.api_calls c ++ [CurrentPlayback])
                        (Repeat next device_id))
               (called (Repeat next device_id) (called CurrentPlayback c))).
  { intros next. unfold SpotifyClient.except_spotify, SpotifyClient.bind.
    rewrite (call_answer web_api _ s _ Hsp'). simpl.
    destruct (web_api s (SpotifyClient.api_calls c ++ [CurrentPlayback])
                (Repeat next device_id)); reflexivity. }
  destruct (web_api s (SpotifyClient.api_calls c) CurrentPlayback)
    as [v|msg|name] eqn:Hapi.
  - assert (Hidle : py_bool v = false ->
              SpotifyClient.cycle_repeat web_api device_id c =
              repeat_outcome "context"
                (web_api s (SpotifyClient.api_calls c ++ [CurrentPlayback])
                         (Repeat "context" device_id))
                (called (Repeat "context" device_id) (called CurrentPlayback c))).
    { intros Hv. unfold SpotifyClient.cycle_repeat.
      unfold SpotifyClient.bind at 1. rewrite (ensure_ok c s Hsp).
      unfold SpotifyClient.bind at 1.
      rewrite (get_playback_state_idle web_api c s v Hsp Hapi Hv).
      unfold SpotifyClient.bind at 1. simpl SpotifyClient.next_repeat_state.
      unfold SpotifyClient.ret at 1. apply Hcall. }
    destruct v as [| bo |n|str|items|[|f fields]|nu de]; try exact Hidle.
    intros Hitem Hdev m Hm.
    destruct (get_playback_state_dict web_api c s (f :: fields) Hsp Hapi)
      as (st & Hret & _ & _ & _ & _ & _ & _ & Hrep & _);
      [discriminate|exact Hitem|exact Hdev|].
    rewrite Hm in Hrep.
    exists (if String.eqb m "off" then "context"
            else if String.eqb m "context" then "track" else "off").
    split.
    { unfold SpotifyClient.cycle_repeat.
      unfold SpotifyClient.bind at 1. rewrite (ensure_ok c s Hsp).
      unfold SpotifyClient.bind at 1. rewrite Hret.
      unfold SpotifyClient.bind at 1. rewrite Hrep.
      simpl SpotifyClient.next_repeat_state. unfold SpotifyClient.ret at 1.
      apply Hcall. }
    repeat split.
    + intros ->. reflexivity.
    + intros ->. reflexivity.
    + intros ->. reflexivity.
    + intros H1 H2.
      destruct (String.eqb_spec m "off"); [contradiction|].
      destruct (String.eqb_spec m "context"); [contradiction|reflexivity].
  - unfold SpotifyClient.cycle_repeat.
    unfold SpotifyClient.bind at 1. rewrite (ensure_ok c s Hsp).
    unfold SpotifyClient.bind at 1.
    now rewrite (get_playback_state_unavailable web_api c s msg Hsp Hapi).
  - unfold SpotifyClient.cycle_repeat.
    unfold SpotifyClient.bind at 1. rewrite (ensure_ok c s Hsp).
    unfold SpotifyClient.bind at 1.
    now rewrite (get_playback_state_breaks web_api c s name Hsp Hapi).
Qed.

Lemma client_authenticate_reads_the_cache_witness :
  exists c' : SpotifyClient.t,
    SpotifyClient.authenticate demo_lib demo_config
      (SpotifyClient.mk (boot (cache_with demo_token) silence) None []) =
      SpotifyClient.Returns true c' /\
    SpotifyClient._sp c' = Some (mkSpotify "BQD-access").
Proof.
  destruct (SpotifyClient.authenticate demo_lib demo_config
              (SpotifyClient.mk (boot (cache_with demo_token) silence) None []))
    as [b c'|exc c'] eqn:Hrun; [|vm_compute in Hrun; discriminate].
  assert (Hb : b = true) by (vm_compute in Hrun; injection Hrun as <- _; reflexivity).
  subst b.
  destruct (client_authenticate_reads_the_cache demo_lib demo_config
              (SpotifyClient.mk (boot (cache_with demo_token) silence) None [])
              c' true)
    as ((tok & Hc & Hsp & _) & _).
  - left. reflexivity.
  - exact Hrun.
  - exists c'. split; [reflexivity|].
    rewrite Hsp. f_equal. f_equal.
    vm_compute in Hrun. injection Hrun as <-. vm_compute in Hc.
    injection Hc as <-. reflexivity.
Defined.

Lemma unauthenticated_commands_raise_witness :
  SpotifyClient.play demo_api None
    (SpotifyClient.mk (boot ∅ silence) None []) =
  SpotifyClient.Raises (RuntimeError "Not authenticated")
    (SpotifyClient.mk (boot ∅ silence) None []).
Proof.
  destruct (unauthenticated_commands_raise demo_api
              (SpotifyClient.mk (boot ∅ silence) None []) None 0)
    as (_ & Hplay & _).
  - reflexivity.
  - exact Hplay.
Defined.

Lemma commands_make_one_call_witness :
  SpotifyClient.seek demo_api 30000 None (demo_client (boot ∅ silence)) =
  SpotifyClient.Returns true
    (called (SeekTrack 30000 None) (demo_client (boot ∅ silence))).
Proof.
  destruct (commands_make_one_call demo_api (demo_client (boot ∅ silence))
              (mkSpotify "BQD-access") None 30000)
    as (_ & _ & _ & _ & Hseek & _).
  - reflexivity.
  - exact Hseek.
Defined.

Lemma set_volume_is_clamped_witness :
  SpotifyClient.api_calls
    (SpotifyClient.state_of
       (SpotifyClient.set_volume demo_api 250 None (demo_client (boot ∅ silence)))) =
  [Volume 100 None].
Proof.
  destruct (set_volume_is_clamped demo_api (demo_client (boot ∅ silence))
              (mkSpotify "BQD-access") None 250)
    as (v & Hret & _ & _ & _ & Hhigh).
  - reflexivity.
  - rewrite Hret, (Hhigh ltac:(lia)). reflexivity.
Defined.

Lemma playback_state_defaults_witness :
  exists st,
    SpotifyClient.get_playback_state demo_api (demo_client (boot ∅ silence)) =
      SpotifyClient.Returns (Some st)
        (called CurrentPlayback (demo_client (boot ∅ silence))) /\
    SpotifyClient.progress_ms st <> JNull /\
    SpotifyClient.volume_percent st = JNum 50.
Proof.
  destruct (playback_state_defaults demo_api (demo_client (boot ∅ silence))
              (mkSpotify "BQD-access") eq_refl eq_refl eq_refl)
    as (st & Hret & Hnn & _ & _ & Hvol & _).
  exists st. split; [exact Hret|]. split; [exact Hnn|].
  apply Hvol. reflexivity.
Defined.

Lemma toggle_playback_follows_the_player_witness :
  SpotifyClient.api_calls
    (SpotifyClient.state_of
       (SpotifyClient.toggle_playback demo_api None (demo_client (boot ∅ silence)))) =
  [CurrentPlayback; PausePlayback None].
Proof.
  rewrite (toggle_playback_follows_the_player demo_api
             (demo_client (boot ∅ silence)) (mkSpotify "BQD-access") None
             eq_refl eq_refl eq_refl).
  reflexivity.
Defined.

Lemma cycle_repeat_steps_the_mode_witness :
  SpotifyClient.cycle_repeat demo_api None (demo_client (boot ∅ silence)) =
  SpotifyClient.Returns "track"
    (called (Repeat "track" None)
       (called CurrentPlayback (demo_client (boot ∅ silence)))).
Proof.
  destruct (cycle_repeat_steps_the_mode demo_api
              (demo_client (boot ∅ silence)) (mkSpotify "BQD-access") None
              eq_refl eq_refl eq_refl "context" eq_refl)
    as (next & Hasks & _ & Hctx & _).
  rewrite (Hctx eq_refl) in Hasks. exact Hasks.
Defined.

(** * Beyond the listed claims: formatting helpers *)

Lemma str_length_app (a b : string) :
  String.length (a +:+ b) = (String.length a + String.length b)%nat.
Proof. induction a as [|x a IH]; simpl; [reflexivity|now rewrite IH]. Qed.

(** Strings that agree and end in pieces of the same length agree piece by
    piece. *)
Lemma str_app_split (a c b d : string) :
  a +:+ b = c +:+ d -> String.length b = String.length d -> a = c /\ b = d.
Proof.
  revert c. induction a as [|x a IH]; intros [|y c] Heq Hlen; simpl in *.
  - auto.
  - apply (f_equal String.length) in Heq.
    rewrite ?str_length_app in Heq. simpl in Heq.
    rewrite ?str_length_app in Heq. lia.
  - apply (f_equal String.length) in Heq.
    rewrite ?str_length_app in Heq. simpl in Heq.
    rewrite ?str_length_app in Heq. lia.
  - injection Heq as -> Heq. destruct (IH c Heq Hlen) as [-> ->]. auto.
Qed.

Lemma str_take_length (n : nat) (s : string) :
  String.length (str_take n s) = Nat.min n (String.length s).
Proof.
  revert s. induction n as [|n IH]; intros [|a s]; simpl; try reflexivity.
  now rewrite IH.
Qed.

Lemma format_02d_length (s : Z) :
  0 <= s < 60 -> String.length (format_02d s) = 2%nat.
Proof.
  intros Hs.
  assert (H : forall n : nat, (n < 60)%nat ->
                String.length (format_02d (Z.of_nat n)) = 2%nat).
  { intros n Hn. do 60 (destruct n as [|n]; [vm_compute; reflexivity|]). lia. }
  rewrite <- (Z2Nat.id s) by lia. apply H. lia.
Qed.

(** On 0..59 the two-digit field determines the number. *)
Lemma format_02d_inj (x y : Z) :
  0 <= x < 60 -> 0 <= y < 60 -> format_02d x = format_02d y -> x = y.
Proof.
  intros Hx Hy. unfold format_02d.
  assert (Hshort : forall z, 0 <= z < 60 ->
            (String.length (pretty z) <? 2)%nat = true -> 0 <= z < 10).
  { intros z Hz. rewrite <- (Z2Nat.id z) by lia.
    assert (Hn : (Z.to_nat z < 60)%nat) by lia. revert Hn.
    generalize (Z.to_nat z). intros n Hn.
    do 10 (destruct n as [|n]; [lia|]).
    do 50 (destruct n as [|n]; [vm_compute; discriminate|]). lia. }
  assert (Hlong : forall z, 0 <= z < 60 ->
            (String.length (pretty z) <? 2)%nat = false -> 10 <= z).
  { intros z Hz. rewrite <- (Z2Nat.id z) by lia.
    assert (Hn : (Z.to_nat z < 60)%nat) by lia. revert Hn.
    generalize (Z.to_nat z). intros n Hn.
    do 10 (destruct n as [|n]; [vm_compute; discriminate|]). lia. }
  assert (Hzero : forall z w : Z, 10 <= z < 60 -> "0" +:+ pretty w <> pretty z).
  { intros z w Hz. rewrite <- (Z2Nat.id z) by lia.
    assert (Hn : (Z.to_nat z < 60)%nat) by lia.
    assert (Hm : (10 <= Z.to_nat z)%nat) by lia. revert Hn Hm.
    generalize (Z.to_nat z). intros n Hn Hm.
    do 10 (destruct n as [|n]; [lia|]).
    do 50 (destruct n as [|n]; [vm_compute; discriminate|]). lia. }
  destruct (String.length (pretty x) <? 2)%nat eqn:Ex,
           (String.length (pretty y) <? 2)%nat eqn:Ey; intros Heq.
  - simpl in Heq. injection Heq as Heq. apply pretty_Z_inj. exact Heq.
  - exfalso. apply (Hzero y x); [|exact Heq].
    pose proof (Hlong y Hy Ey). lia.
  - exfalso. apply (Hzero x y); [|now symmetry].
    pose proof (Hlong x Hx Ex). lia.
  - apply pretty_Z_inj. exact Heq.
Qed.

(** X17. [format_duration] shows whole seconds and nothing else: the text
    is the minutes, a colon and a two-digit seconds field between 00 and
    59 (also for negative input, where Python rounds down), so two
    durations are displayed alike exactly when they fall in the same
    second. *)
Theorem format_duration_shows_whole_seconds (a b : Z) :
  (exists (minutes seconds : Z) (field : string),
      format_duration (Some a) = pretty minutes +:+ ":" +:+ field /\
      field = format_02d seconds /\
      String.length field = 2%nat /\
      0 <= seconds < 60 /\
      a / 1000 = 60 * minutes + seconds) /\
  (format_duration (Some a) = format_duration (Some b) <-> a / 1000 = b / 1000).
Proof.
  assert (Hrange : forall x, 0 <= (x / 1000) mod 60 < 60)
    by (intros x; apply Z.mod_pos_bound; lia).
  split.
  - exists (a / 1000 / 60), ((a / 1000) mod 60), (format_02d ((a / 1000) mod 60)).
    split; [reflexivity|]. split; [reflexivity|].
    split; [apply format_02d_length, Hrange|]. split; [apply Hrange|].
    apply Z.div_mod. lia.
  - split.
    + unfold format_duration. intros Heq.
      apply str_app_split in Heq as [Hm Hs];
        [|now rewrite !str_length_app, !format_02d_length by apply Hrange].
      simpl in Hs. injection Hs as Hs.
      apply pretty_Z_inj in Hm.
      assert (Hsec : (a / 1000) mod 60 = (b / 1000) mod 60)
        by (apply format_02d_inj; auto).
      rewrite (Z.div_mod (a / 1000) 60), (Z.div_mod (b / 1000) 60) by lia.
      now rewrite Hm, Hsec.
    + intros Heq. unfold format_duration. now rewrite Heq.
Qed.

(** X18. [truncate_text] keeps within the limit whenever the suffix itself
    fits: a text that fits is returned as it is, and a longer one is cut so
    that, with the suffix appended, it has exactly [max_length]
    characters. *)
Theorem truncate_text_fits (text suffix : string) (max_length : Z) :
  Z.of_nat (String.length suffix) <= max_length ->
  Z.of_nat (String.length (truncate_text text max_length suffix)) <= max_length /\
  (Z.of_nat (String.length text) <= max_length ->
   truncate_text text max_length suffix = text) /\
  (max_length < Z.of_nat (String.length text) ->
   truncate_text text max_length suffix =
     str_take (Z.to_nat (max_length - Z.of_nat (String.length suffix))) text
     +:+ suffix /\
   Z.of_nat (String.length (truncate_text text max_length suffix)) = max_length).
Proof.
  intros Hfit. unfold truncate_text, slice_to.
  destruct (Z.leb_spec (Z.of_nat (String.length text)) max_length) as [Hle|Hgt].
  - split; [exact Hle|]. split; [reflexivity|]. lia.
  - destruct (Z.ltb_spec (max_length - Z.of_nat (String.length suffix)) 0)
      as [Hneg|_]; [lia|].
    assert (Hlen : Z.of_nat (String.length
                      (str_take (Z.to_nat (max_length - Z.of_nat (String.length suffix)))
                         text +:+ suffix)) = max_length).
    { rewrite str_length_app, str_take_length. lia. }
    split; [lia|]. split; [lia|]. intros _. split; [reflexivity|exact Hlen].
Qed.

(** X19. With a limit shorter than the suffix the limit is not kept: the
    slice index becomes negative, Python counts it from the end of the
    text, and the result, the text without its last
    [len(suffix) - max_length] characters followed by the suffix, is longer
    than [max_length]. *)
Theorem truncate_text_overshoots (text suffix : string) (max_length : Z) :
  max_length < Z.of_nat (String.length suffix) ->
  max_length < Z.of_nat (String.length text) ->
  truncate_text text max_length suffix =
    str_take (String.length text -
              Z.to_nat (Z.of_nat (String.length suffix) - max_length)) text
    +:+ suffix /\
  max_length < Z.of_nat (String.length (truncate_text text max_length suffix)).
Proof.
  intros Hshort Hlong. unfold truncate_text, slice_to.
  destruct (Z.leb_spec (Z.of_nat (String.length text)) max_length) as [Hle|_];
    [lia|].
  destruct (Z.ltb_spec (max_length - Z.of_nat (String.length suffix)) 0)
    as [_|Hpos]; [|lia].
  replace (Z.to_nat (Z.max 0 (Z.of_nat (String.length text) +
                               (max_length - Z.of_nat (String.length suffix)))))
    with (String.length text -
          Z.to_nat (Z.of_nat (String.length suffix) - max_length))%nat by lia.
  split; [reflexivity|].
  rewrite str_length_app. lia.
Qed.

(** X20. [get_album_art_url] never indexes out of range, and which image
    it reads is determined by the size and the length of the list: an empty
    list gives [None]; otherwise the result is the [url] of the image at
    position 1 for [medium] when there are at least two images, at
    position 2 for [small] when there are at least three, and at position 0
    in every other case ([large], an unknown size, or too few images for
    the size asked). *)
Theorem album_art_url_is_in_range
    (images : list (list (string * json))) (size : string) :
  exists v : json,
    get_album_art_url images size = Ok v /\
    match images with
    | [] => v = JNull
    | first :: _ =>
        exists (i : nat) (image : list (string * json)),
          images !! i = Some image /\
          v = dict_get image "url" JNull /\
          (size = "medium" -> (1 < length images)%nat -> i = 1%nat) /\
          (size = "small" -> (2 < length images)%nat -> i = 2%nat) /\
          (size = "medium" -> (length images <= 1)%nat -> i = 0%nat) /\
          (size = "small" -> (length images <= 2)%nat -> i = 0%nat) /\
          (size <> "medium" -> size <> "small" -> i = 0%nat) /\
          (i = 0%nat -> image = first)
    end.
Proof.
  destruct images as [|first rest]; [exists JNull; split; reflexivity|].
  unfold get_album_art_url.
  destruct (String.eqb_spec size "large") as [->|Hl].
  - simpl. exists (dict_get first "url" JNull). split; [reflexivity|].
    exists 0%nat, first. repeat split; auto; discriminate.
  - cbn [andb].
    destruct (String.eqb_spec size "medium") as [->|Hm].
    + destruct rest as [|second rest].
      * simpl. exists (dict_get first "url" JNull). split; [reflexivity|].
        exists 0%nat, first. repeat split; auto; try discriminate; lia.
      * simpl. exists (dict_get second "url" JNull). split; [reflexivity|].
        exists 1%nat, second. repeat split; auto; try discriminate; try lia.
        intros H. contradiction.
    + cbn [andb].
      destruct (String.eqb_spec size "small") as [->|Hs].
      * destruct rest as [|second [|third rest]].
        -- simpl. exists (dict_get first "url" JNull). split; [reflexivity|].
           exists 0%nat, first. repeat split; auto; try discriminate; lia.
        -- simpl. exists (dict_get first "url" JNull). split; [reflexivity|].
           exists 0%nat, first. repeat split; auto; try discriminate; lia.
        -- simpl. exists (dict_get third "url" JNull). split; [reflexivity|].
           exists 2%nat, third. repeat split; auto; try discriminate; try lia.
           intros _ H. contradiction.
      * cbn [andb]. exists (dict_get first "url" JNull). split; [reflexivity|].
        exists 0%nat, first. repeat split; auto; contradiction.
Qed.

Lemma truncate_text_fits_witness :
  truncate_text "Kind of Blue (Legacy Edition)" 12 "..." = "Kind of B..." /\
  truncate_text "So What" 12 "..." = "So What".
Proof.
  destruct (truncate_text_fits "Kind of Blue (Legacy Edition)" "..." 12)
    as (_ & _ & Hcut); [simpl; lia|].
  destruct (truncate_text_fits "So What" "..." 12) as (_ & Hkeep & _); [simpl; lia|].
  split.
  - destruct Hcut as [Hcut _]; [simpl; lia|]. rewrite Hcut. reflexivity.
  - apply Hkeep. simpl. lia.
Defined.

Lemma truncate_text_overshoots_witness :
  truncate_text "hello world" 2 "..." = "hello worl...".
Proof.
  destruct (truncate_text_overshoots "hello world" "..." 2) as [Hcut _].
  - simpl. lia.
  - simpl. lia.
  - rewrite Hcut. reflexivity.
Defined.

(** * Beyond the listed claims: the configuration object *)

Lemma dict_lookup_set_eq fields key value :
  dict_lookup (dict_set fields key value) key = Some value.
Proof.
  induction fields as [|[k v] rest IH]; simpl.
  - now rewrite String.eqb_refl.
  - destruct (String.eqb k key) eqn:E; simpl; rewrite E; [reflexivity|exact IH].
Qed.

Lemma dict_lookup_set_ne fields key other value :
  other <> key ->
  dict_lookup (dict_set fields key value) other = dict_lookup fields other.
Proof.
  intros Hne. induction fields as [|[k v] rest IH]; simpl.
  - destruct (String.eqb_spec key other) as [->|_]; [contradiction|reflexivity].
  - destruct (String.eqb_spec k key) as [->|Hk]; simpl.
    + destruct (String.eqb_spec key other) as [->|_]; [contradiction|reflexivity].
    + destruct (String.eqb k other); [reflexivity|exact IH].
Qed.

(** X21. A missing, unparsable or unreadable configuration file gives the
    defaults, and with the defaults the client is not configured, the
    credentials are empty and the redirect URI is the local callback on
    port 8888.  A file that cannot be decoded as text is not covered by the
    [except] clause: its [UnicodeDecodeError] leaves the constructor. *)
Theorem config_falls_back_to_defaults
    (disk : gmap string ConfigStore.content) (path cache : string) :
  match disk !! path with
  | Some (ConfigStore.Json v) =>
      ConfigStore.init disk path cache = Ok (ConfigStore.mk path cache v)
  | Some ConfigStore.NotText =>
      ConfigStore.init disk path cache = Err "UnicodeDecodeError"
  | _ =>
      exists c,
        ConfigStore.init disk path cache = Ok c /\
        ConfigStore._config c = ConfigStore._default_config /\
        ConfigStore.is_configured c = Ok false /\
        ConfigStore.client_id c = Ok (JStr "") /\
        ConfigStore.client_secret c = Ok (JStr "") /\
        ConfigStore.redirect_uri c = Ok (JStr "http://localhost:8888/callback") /\
        ConfigStore.token_cache_path c = cache
  end.
Proof.
  unfold ConfigStore.init, ConfigStore._load_config.
  destruct (disk !! path) as [[v|raw| |]|]; try reflexivity;
    (eexists; split; [reflexivity|]; repeat split).
Qed.

(** X22. Each key reads back what was set and nothing else moves: after
    [set(key, value)], [get(key)] is [value] and every other key reads as
    before; the credentials setters make [is_configured()] true exactly
    when both values are truthy, and leave the redirect URI alone.  A key
    the file lacks reads as its property's default ([client_id] as the
    empty string), so a configuration without it is not configured. *)
Theorem config_set_then_get
    (c : ConfigStore.t) (fields : list (string * json))
    (key other : string) (value default id secret : json) :
  ConfigStore._config c = JDict fields ->
  other <> key ->
  (exists c1,
      ConfigStore.set c key value = Ok c1 /\
      ConfigStore.get c1 key default = Ok value /\
      ConfigStore.get c1 other default = ConfigStore.get c other default /\
      ConfigStore.config_file c1 = ConfigStore.config_file c) /\
  (exists c1 c2,
      ConfigStore.set_client_id c id = Ok c1 /\
      ConfigStore.set_client_secret c1 secret = Ok c2 /\
      ConfigStore.client_id c2 = Ok id /\
      ConfigStore.client_secret c2 = Ok secret /\
      ConfigStore.is_configured c2 = Ok (py_bool id && py_bool secret) /\
      ConfigStore.redirect_uri c2 = ConfigStore.redirect_uri c) /\
  (dict_lookup fields "client_id" = None ->
   ConfigStore.client_id c = Ok (JStr "") /\
   ConfigStore.get c "client_id" JNull = Ok JNull /\
   ConfigStore.is_configured c = Ok false).
Proof.
  intros Hc Hne. split; [|split].
  - unfold ConfigStore.set, ConfigStore.get. rewrite Hc.
    eexists. split; [reflexivity|]. simpl. unfold dict_get.
    rewrite dict_lookup_set_eq, (dict_lookup_set_ne _ _ _ _ Hne). auto.
  - unfold ConfigStore.set_client_id, ConfigStore.set_client_secret,
      ConfigStore.set. rewrite Hc.
    eexists _, _. split; [reflexivity|]. simpl. split; [reflexivity|].
    unfold ConfigStore.is_configured, ConfigStore.client_id,
      ConfigStore.client_secret, ConfigStore.redirect_uri, ConfigStore.get.
    rewrite Hc. simpl. unfold dict_get.
    rewrite dict_lookup_set_eq.
    rewrite !(dict_lookup_set_ne _ "client_secret") by discriminate.
    rewrite dict_lookup_set_eq.
    rewrite !(dict_lookup_set_ne _ "client_id") by discriminate.
    repeat split. destruct (py_bool id); reflexivity.
  - intros Hmiss.
    unfold ConfigStore.is_configured, ConfigStore.client_id, ConfigStore.get.
    rewrite Hc. unfold dict_get. rewrite Hmiss. auto.
Qed.

Lemma config_set_then_get_witness :
  exists c2 : ConfigStore.t,
    ConfigStore.set_client_secret
      (ConfigStore.mk "/cfg/config.json" "/cache/.spotify_token_cache"
         (JDict [("client_id", JStr "cid"); ("theme", JStr "spotify")]))
      (JStr "s3cret") = Ok c2 /\
    ConfigStore.get c2 "client_secret" JNull = Ok (JStr "s3cret") /\
    ConfigStore.get c2 "theme" JNull = Ok (JStr "spotify").
Proof.
  destruct (config_set_then_get
              (ConfigStore.mk "/cfg/config.json" "/cache/.spotify_token_cache"
                 (JDict [("client_id", JStr "cid"); ("theme", JStr "spotify")]))
              [("client_id", JStr "cid"); ("theme", JStr "spotify")]
              "client_secret" "theme" (JStr "s3cret") JNull JNull JNull)
    as ((c1 & Hset & Hget & Hother & _) & _).
  - reflexivity.
  - discriminate.
  - exists c1. split; [exact Hset|]. split; [exact Hget|].
    rewrite Hother. reflexivity.
Defined.

(** [get_cached_token] has no accept loop: the branch of
    [SpotifyClient.auth_get_cached_token] for a run still waiting is never
    taken. *)
Lemma get_cached_token_never_waits (lib : Library) (config : Config) (w w' : World) :
  get_cached_token lib config w <> Waiting w'.
Proof.
  unfold get_cached_token, _get_oauth, oauth_get_cached_token,
    oauth_refresh_access_token, save_token, bind, read, update, emit, ret, raise.
  destruct (_oauth w) as [o|]; simpl.
  - destruct (fs w !! oa_cache_path o) as [[t|raw]|]; try discriminate.
    destruct (is_token_expired lib t); try discriminate.
    destruct (refresh_access_token lib (refresh_token t)); discriminate.
  - destruct (fs w !! token_cache_path config) as [[t|raw]|]; try discriminate.
    destruct (is_token_expired lib t); try discriminate.
    destruct (refresh_access_token lib (refresh_token t)); discriminate.
Qed.

(** X23. [toggle_shuffle] asks for the opposite of the shuffle state the
    player reports, a missing or falsy value counting as off; it returns
    [True] when that call goes through and [False] when it raises
    [SpotifyException].  When the state cannot be fetched it makes no
    second call and returns [False]. *)
Theorem toggle_shuffle_inverts_the_report
    (web_api : Spotify -> list ApiCall -> ApiCall -> ApiResult)
    (c : SpotifyClient.t) (s : Spotify) (device_id : option string) :
  SpotifyClient._sp c = Some s ->
  let asks state :=
    SpotifyClient.toggle_shuffle web_api device_id c =
    one_call (web_api s (SpotifyClient.api_calls c ++ [CurrentPlayback])
                      (Shuffle state device_id))
             (called (Shuffle state device_id) (called CurrentPlayback c)) in
  match web_api s (SpotifyClient.api_calls c) CurrentPlayback with
  | ApiSpotifyException _ =>
      SpotifyClient.toggle_shuffle web_api device_id c =
      SpotifyClient.Returns false (called CurrentPlayback c)
  | ApiOtherException name =>
      SpotifyClient.toggle_shuffle web_api device_id c =
      SpotifyClient.Raises (OtherException name) (called CurrentPlayback c)
  | ApiOk (JDict (f :: fields)) =>
      falsy_or_dict (dict_get (f :: fields) "item" JNull) = true ->
      falsy_or_dict (dict_get (f :: fields) "device" JNull) = true ->
      asks (negb (py_bool (dict_get (f :: fields) "shuffle_state" (JBool false))))
  | ApiOk v => py_bool v = false -> asks true
  end.
Proof.
  intros Hsp asks. unfold asks.
  assert (Hsp' : SpotifyClient._sp (called CurrentPlayback c) = Some s) by exact Hsp.
  assert (Hcall : forall state,
             SpotifyClient.except_spotify
               (SpotifyClient.bind
                  (SpotifyClient.call web_api (Shuffle state device_id))
                  (fun _ => SpotifyClient.ret true))
               (SpotifyClient.ret false) (called CurrentPlayback c) =
             one_call (web_api s (SpotifyClient.api_calls c ++ [CurrentPlayback])
                               (Shuffle state device_id))
                      (called (Shuffle state device_id) (called CurrentPlayback c))).
  { intros state. unfold SpotifyClient.except_spotify, SpotifyClient.bind.
    rewrite (call_answer web_api _ s _ Hsp'). simpl.
    destruct (web_api s (SpotifyClient.api_calls c ++ [CurrentPlayback])
                (Shuffle state device_id)); reflexivity. }
  destruct (web_api s (SpotifyClient.api_calls c) CurrentPlayback)
    as [v|msg|name] eqn:Hapi.
  - assert (Hidle : py_bool v = false ->
              SpotifyClient.toggle_shuffle web_api device_id c =
              one_call (web_api s (SpotifyClient.api_calls c ++ [CurrentPlayback])
                                (Shuffle true device_id))
                       (called (Shuffle true device_id) (called CurrentPlayback c))).
    { intros Hv. unfold SpotifyClient.toggle_shuffle.
      unfold SpotifyClient.bind at 1. rewrite (ensure_ok c s Hsp).
      unfold SpotifyClient.bind at 1.
      rewrite (get_playback_state_idle web_api c s v Hsp Hapi Hv).
      apply Hcall. }
    destruct v as [| bo |n|str|items|[|f fields]|nu de]; try exact Hidle.
    intros Hitem Hdev.
    destruct (get_playback_state_dict web_api c s (f :: fields) Hsp Hapi)
      as (st & Hret & _ & _ & _ & _ & _ & Hshuffle & _);
      [discriminate|exact Hitem|exact Hdev|].
    unfold SpotifyClient.toggle_shuffle.
    unfold SpotifyClient.bind at 1. rewrite (ensure_ok c s Hsp).
    unfold SpotifyClient.bind at 1. rewrite Hret, Hshuffle.
    apply Hcall.
  - unfold SpotifyClient.toggle_shuffle.
    unfold SpotifyClient.bind at 1. rewrite (ensure_ok c s Hsp).
    unfold SpotifyClient.bind at 1.
    now rewrite (get_playback_state_unavailable web_api c s msg Hsp Hapi).
  - unfold SpotifyClient.toggle_shuffle.
    unfold SpotifyClient.bind at 1. rewrite (ensure_ok c s Hsp).
    unfold SpotifyClient.bind at 1.
    now rewrite (get_playback_state_breaks web_api c s name Hsp Hapi).
Qed.

Lemma toggle_shuffle_inverts_the_report_witness :
  SpotifyClient.api_calls
    (SpotifyClient.state_of
       (SpotifyClient.toggle_shuffle demo_api None (demo_client (boot ∅ silence)))) =
  [CurrentPlayback; Shuffle true None].
Proof.
  rewrite (toggle_shuffle_inverts_the_report demo_api
             (demo_client (boot ∅ silence)) (mkSpotify "BQD-access") None
             eq_refl eq_refl eq_refl).
  reflexivity.
Defined.

(** X24. [format_track_info] answers ["No track playing"] for every falsy
    track, [None] and also the empty dict.  For any other dict it is the
    name, [" - "] and what [format_artist_names] makes of the artists,
    whose exception, if any, passes through; a missing name reads
    ["Unknown"], missing artists give an empty list of names, and an artist
    whose name is not a string makes the join raise [TypeError]. *)
Theorem track_info_is_name_and_artists
    (py_str : json -> string) (f : string * json) (fields : list (string * json)) :
  (forall s : string, py_str (JStr s) = s) ->
  let track := JDict (f :: fields) in
  let artists := dict_get (f :: fields) "artists" (JList []) in
  (forall v : json, py_bool v = false ->
                    format_track_info py_str v = Ok "No track playing") /\
  format_track_info py_str (JDict []) = Ok "No track playing" /\
  format_track_info py_str track =
    match format_artist_names artists with
    | Ok names =>
        Ok (py_str (dict_get (f :: fields) "name" (JStr "Unknown")) +:+ " - " +:+ names)
    | Err exc => Err exc
    end /\
  (dict_lookup (f :: fields) "name" = None ->
   dict_lookup (f :: fields) "artists" = None ->
   format_track_info py_str track = Ok "Unknown - ") /\
  (forall (artist : list (string * json)) (others : list json) (v : json),
      artists = JList (JDict artist :: others) ->
      dict_lookup artist "name" = Some v ->
      (forall s : string, v <> JStr s) ->
      (exists names, artist_names others = Ok names) ->
      format_track_info py_str track = Err "TypeError").
Proof.
  intros Hstr track artists.
  assert (Hfalsy : forall v : json, py_bool v = false ->
                     format_track_info py_str v = Ok "No track playing").
  { intros v Hv. unfold format_track_info. now rewrite Hv. }
  assert (Hdict : format_track_info py_str track =
                  match format_artist_names artists with
                  | Ok names =>
                      Ok (py_str (dict_get (f :: fields) "name" (JStr "Unknown"))
                          +:+ " - " +:+ names)
                  | Err exc => Err exc
                  end) by reflexivity.
  split; [exact Hfalsy|]. split; [now apply Hfalsy|]. split; [exact Hdict|]. split.
  - intros Hname Hart. rewrite Hdict. unfold artists, dict_get.
    rewrite Hname, Hart. simpl. now rewrite Hstr.
  - intros artist others v Hlist Hv Hnot (names & Hnames).
    rewrite Hdict, Hlist. unfold format_artist_names. simpl.
    rewrite Hnames. unfold dict_get. rewrite Hv.
    destruct v as [| bo |n|str|items|d|nu de]; try reflexivity;
      try (destruct names; reflexivity).
    now destruct (Hnot str).
Qed.

Lemma track_info_is_name_and_artists_witness :
  format_track_info demo_str
    (JDict [("name", JStr "So What");
            ("artists", JList [JDict [("name", JStr "Miles Davis")];
                               JDict [("id", JStr "2hGh5VOeeqimQFxqXvfCUf")]])]) =
  Ok "So What - Miles Davis, Unknown".
Proof.
  destruct (track_info_is_name_and_artists demo_str
              ("name", JStr "So What")
              [("artists", JList [JDict [("name", JStr "Miles Davis")];
                                  JDict [("id", JStr "2hGh5VOeeqimQFxqXvfCUf")]])])
    as (_ & _ & Hinfo & _).
  - reflexivity.
  - rewrite Hinfo. reflexivity.
Defined.
